(** * Runtime-configurable runnables
    ([langchain/schema/runnable/configurable.py])

    A shallow embedding of [DynamicRunnable] and of its two concrete
    resolvers, [RunnableConfigurableFields] and
    [RunnableConfigurableAlternatives], together with the properties of
    resolution ([_prepare]), of [config_specs] and of [batch]. *)

From Stdlib Require Import ZArith String Ascii List Lia.
From stdpp Require Import base option list gmap strings pretty fin_maps.

Open Scope string_scope.

(** ** Python values *)

(** The values a ["configurable"] mapping carries for a field or for the
    selector: [None], booleans, integers and strings (the hashable scalars;
    a selector is declared as a union of string literals). *)
Inductive PyVal : Type :=
| VNone
| VBool (b : bool)
| VInt (n : Z)
| VStr (s : string).

#[global] Instance PyVal_eq_dec : EqDecision PyVal.
Proof. solve_decision. Defined.

(** Truth value testing, as [not which] uses it. *)
Definition truthy (v : PyVal) : bool :=
  match v with
  | VNone => false
  | VBool b => b
  | VInt n => negb (n =? 0)%Z
  | VStr s => negb (bool_decide (s = ""))
  end.

(** [str(v)], as the f-string [f"{which}"] formats a value. *)
Definition py_str (v : PyVal) : string :=
  match v with
  | VNone => "None"
  | VBool true => "True"
  | VBool false => "False"
  | VInt n => pretty n
  | VStr s => s
  end.

(** ** Exceptions and results *)

Inductive Exn : Type :=
| ValueError (msg : string)
| IndexError (msg : string)
| UnitError (tag : string).   (* any exception raised by a collaborator *)

#[global] Instance Exn_eq_dec : EqDecision Exn.
Proof. solve_decision. Defined.

Inductive result (A : Type) : Type :=
| Ok (a : A)
| Raise (e : Exn).
Arguments Ok {A} a.
Arguments Raise {A} e.

Definition result_map {A B} (f : A → B) (r : result A) : result B :=
  match r with Ok a => Ok (f a) | Raise e => Raise e end.

Definition result_bind {A B} (r : result A) (k : A → result B) : result B :=
  match r with Ok a => k a | Raise e => Raise e end.

(** ** Python dictionaries

    A [dict] whose iteration order is observed is kept as the list of its
    items in insertion order; a list stands for a dictionary when its keys
    are pairwise distinct ([dict_wf]). *)
Abbreviation pydict V := (list (string * V)).

Definition dict_wf {V} (d : pydict V) : Prop := NoDup d.*1.

Fixpoint dict_get {V} (d : pydict V) (k : string) : option V :=
  match d with
  | [] => None
  | (k', v) :: d' => if bool_decide (k' = k) then Some v else dict_get d' k
  end.

Definition dict_keys {V} (d : pydict V) : list string := d.*1.
Definition dict_values {V} (d : pydict V) : list V := d.*2.

(** [del d[k]]: the mapping without key [k]. *)
Definition dict_del {V} (k : string) (d : pydict V) : pydict V :=
  filter (λ kv, kv.1 ≠ k) d.

(** ** Descriptors and configurations (declared in [runnable/utils.py] and
    [runnable/config.py]) *)

(** Type annotations, as far as [config_specs] builds them. *)
#[warnings="-register-all"]
Inductive Annotation : Type :=
| ALiteral (v : string)                (* [Literal[v]] *)
| AUnion (members : list Annotation)   (* [Union[members]] *)
| ANamed (name : string).              (* any other type *)

(** [ConfigurableField]: a declared configurable axis. *)
Record ConfigurableField : Type := {
  cf_id : string;
  cf_name : option string;
  cf_description : option string;
  cf_annotation : option Annotation;
}.

(** [ConfigurableFieldSpec]: what [config_specs] lists. *)
Record ConfigurableFieldSpec : Type := {
  cfs_id : string;
  cfs_name : option string;
  cfs_description : option string;
  cfs_default : PyVal;
  cfs_annotation : Annotation;
}.

(** [RunnableConfig]: the per-call configuration. Only the two entries this
    module reads are kept; [None] is an absent key. *)
Record RunnableConfig : Type := {
  configurable : option (pydict PyVal);
  max_concurrency : option Z;
}.

Definition empty_config : RunnableConfig :=
  {| configurable := None; max_concurrency := None |}.

(** [config or {}] *)
Definition config_or_empty (config : option RunnableConfig) : RunnableConfig :=
  default empty_config config.

(** [config.get("configurable", {})] *)
Definition get_configurable (config : RunnableConfig) : pydict PyVal :=
  default [] (configurable config).

(** The [config] argument of [batch]: nothing, one configuration, or a list. *)
Inductive ConfigArg : Type :=
| CNone
| COne (c : RunnableConfig)
| CList (cs : list RunnableConfig).

(** ** Units

    A runnable object: its identity (what [is] compares), its class and the
    attribute set [dict()] returns. *)
Record Runnable : Type := {
  uid : positive;
  cls : string;
  attrs : gmap string PyVal;
}.

(** [p is q] *)
Definition is_ (p q : Runnable) : bool := bool_decide (uid p = uid q).

(** ** Computations

    Building an object draws a fresh identity; a computation threads the
    next free identity and may raise. *)
Definition M (A : Type) : Type := positive → result (A * positive).

#[global] Instance M_ret : MRet M := λ A a s, Ok (a, s).
#[global] Instance M_bind : MBind M := λ A B k m s,
  match m s with
  | Ok (a, s') => k a s'
  | Raise e => Raise e
  end.

(** A pure, possibly failing step. *)
Definition liftR {A} (r : result A) : M A := λ s,
  match r with Ok a => Ok (a, s) | Raise e => Raise e end.

(** What a computation returns or raises, the allocation state left out. *)
Definition outcome {A} (r : result (A * positive)) : result A :=
  result_map fst r.

(** What a resolution returns or raises, up to the identity of the unit. *)
Definition content (r : result (Runnable * positive)) : result (string * gmap string PyVal) :=
  result_map (λ us, (cls us.1, attrs us.1)) r.

(** ** The collaborators' interface

    What this module consumes from [Runnable] objects. A unit's behaviour is
    that of its class on its attribute set. *)
Class RunnableOps (Input Output Kwargs : Type) : Type := {
  (** [unit.invoke(input, config, **kwargs)] *)
  unit_invoke : string → gmap string PyVal → Input → option RunnableConfig →
                Kwargs → result Output;
  (** [unit.batch(inputs, config, return_exceptions=..., **kwargs)] *)
  unit_batch : string → gmap string PyVal → list Input → ConfigArg → bool →
               Kwargs → result (list (Output + Exn));
  (** [unit.config_specs] *)
  unit_config_specs : string → gmap string PyVal → list ConfigurableFieldSpec;
  (** the constructor call of a class on keyword arguments: the attribute set of the object built, or the
      exception the constructor raises. *)
  unit_new : string → gmap string PyVal → result (gmap string PyVal);
}.

(** Modelled from the spec: [get_config_list] of [runnable/config.py], which
    is not part of this file; "replicate a single config, or require equal
    length if a list is given". *)
Definition get_config_list (config : ConfigArg) (length : nat)
  : result (list RunnableConfig) :=
  match config with
  | CList cs =>
      if bool_decide (List.length cs = length) then Ok cs
      else Raise (ValueError "config must be a list of the same length as inputs")
  | COne c => Ok (replicate length c)
  | CNone => Ok (replicate length empty_config)
  end.

(** Modelled from the spec: [executor.map] on the pool that
    [get_executor_for_config] of [runnable/config.py] opens, which is not
    part of this file; it "collect[s] results positionally in original input
    order", and a failing call propagates when the results are listed. *)
Fixpoint executor_map {A B C R} (f : A → B → C → result R)
    (la : list A) (lb : list B) (lc : list C) : result (list R) :=
  match la, lb, lc with
  | a :: la', b :: lb', c :: lc' =>
      result_bind (f a b c) (λ r,
        result_map (cons r) (executor_map f la' lb' lc'))
  | _, _, _ => Ok []
  end.

(** ** [DynamicRunnable] *)

(** The abstract class: a bound unit and the abstract method [_prepare]. *)
Class DynamicRunnable (Self : Type) : Type := {
  bound : Self → Runnable;
  _prepare : Self → option RunnableConfig → M Runnable;
}.

Section Dispatch.
Context {Input Output Kwargs : Type} {ops : RunnableOps Input Output Kwargs}.
Context {Self : Type} {dyn : DynamicRunnable Self}.

Definition run_invoke (u : Runnable) (input : Input)
    (config : option RunnableConfig) (kwargs : Kwargs) : result Output :=
  unit_invoke (cls u) (attrs u) input config kwargs.

Definition invoke (self : Self) (input : Input)
    (config : option RunnableConfig) (kwargs : Kwargs) : M Output :=
  u ← _prepare self config;
  liftR (run_invoke u input config kwargs).

(** The local function [invoke] of [batch]. *)
Definition batch_invoke (return_exceptions : bool) (kwargs : Kwargs)
    (bound : Runnable) (input : Input) (config : RunnableConfig)
  : result (Output + Exn) :=
  if return_exceptions then
    match run_invoke bound input (Some config) kwargs with
    | Ok o => Ok (inl o)
    | Raise e => Ok (inr e)
    end
  else result_map inl (run_invoke bound input (Some config) kwargs).

Definition batch (self : Self) (inputs : list Input) (config : ConfigArg)
    (return_exceptions : bool) (kwargs : Kwargs) : M (list (Output + Exn)) :=
  configs ← liftR (get_config_list config (length inputs));
  prepared ← mapM (λ c, _prepare self (Some c)) configs;
  if forallb (λ p, is_ p (bound self)) prepared then
    liftR (unit_batch (cls (bound self)) (attrs (bound self))
             inputs config return_exceptions kwargs)
  else
    match inputs with
    | [] => mret []
    | _ =>
      configs ← liftR (get_config_list config (length inputs));
      if bool_decide (length inputs = 1) then
        match prepared, inputs, configs with
        | p :: _, x :: _, c :: _ =>
            r ← liftR (batch_invoke return_exceptions kwargs p x c);
            mret [r]
        | _, _, _ => liftR (Raise (IndexError "list index out of range"))
        end
      else
        liftR (executor_map (batch_invoke return_exceptions kwargs)
                 prepared inputs configs)
    end.
End Dispatch.

(** ** [RunnableConfigurableFields] *)
Module RunnableConfigurableFields.

Record t : Type := {
  bound : Runnable;
  fields : pydict ConfigurableField;
}.

(** [{spec.id: (key, spec) for key, spec in self.fields.items()}] *)
Definition specs_by_id (fields : pydict ConfigurableField)
  : gmap string (string * ConfigurableField) :=
  foldl (λ m ks, <[cf_id ks.2 := ks]> m) ∅ fields.

(** [{specs_by_id[k][0]: v for k, v in items if k in specs_by_id}] *)
Definition overrides (by_id : gmap string (string * ConfigurableField))
    (items : pydict PyVal) : gmap string PyVal :=
  foldl (λ m kv,
           match by_id !! kv.1 with
           | Some ks => <[ks.1 := kv.2]> m
           | None => m
           end) ∅ items.

Section prepare.
Context {Input Output Kwargs : Type} {ops : RunnableOps Input Output Kwargs}.

Definition _prepare (self : t) (config : option RunnableConfig)
  : M Runnable := λ s,
  let config := config_or_empty config in
  let specs_by_id := specs_by_id (fields self) in
  let configurable := overrides specs_by_id (get_configurable config) in
  if bool_decide (configurable = ∅) then Ok (bound self, s)
  else
    (* [{**self.bound.dict(), **configurable}] *)
    match unit_new (cls (bound self)) (configurable ∪ attrs (bound self)) with
    | Ok a => Ok ({| uid := s; cls := cls (bound self); attrs := a |},
                  Pos.succ s)
    | Raise e => Raise e
    end.
End prepare.

End RunnableConfigurableFields.

(** ** [RunnableConfigurableAlternatives] *)
Module RunnableConfigurableAlternatives.

Record t : Type := {
  bound : Runnable;
  which : ConfigurableField;
  alternatives : pydict Runnable;
}.

(** [self.alternatives.get(which)] for a value [which]: the keys are
    strings, and no other value equals one. *)
Definition alternative (self : t) (which : PyVal) : option Runnable :=
  match which with
  | VStr k => dict_get (alternatives self) k
  | _ => None
  end.

(** [config.get("configurable", {}).get(self.which.id)] *)
Definition selected (self : t) (config : option RunnableConfig) : PyVal :=
  default VNone
    (dict_get (get_configurable (config_or_empty config)) (cf_id (which self))).

Definition _prepare (self : t) (config : option RunnableConfig)
  : M Runnable :=
  let which := selected self config in
  if negb (truthy which) then mret (bound self)
  else
    match alternative self which with
    | Some alt => mret alt
    | None => liftR (Raise (ValueError ("Unknown alternative: " +:+ py_str which)))
    end.

Section config_specs.
Context {Input Output Kwargs : Type} {ops : RunnableOps Input Output Kwargs}.

Definition which_keys (self : t) : list Annotation :=
  (ALiteral <$> dict_keys (alternatives self)) ++ [ALiteral "default"].

Definition config_specs (self : t) : list ConfigurableFieldSpec :=
  ({| cfs_id := cf_id (which self);
      cfs_name := cf_name (which self);
      cfs_description := cf_description (which self);
      cfs_annotation := AUnion (which_keys self);
      cfs_default := VStr "default" |}
     :: unit_config_specs (cls (bound self)) (attrs (bound self)))
  ++ (alt ← dict_values (alternatives self);
      unit_config_specs (cls alt) (attrs alt)).
End config_specs.

End RunnableConfigurableAlternatives.

#[global] Instance RunnableConfigurableFields_dynamic
    {Input Output Kwargs : Type} {ops : RunnableOps Input Output Kwargs}
  : DynamicRunnable RunnableConfigurableFields.t := {|
  bound := RunnableConfigurableFields.bound;
  _prepare := RunnableConfigurableFields._prepare;
|}.

#[global] Instance RunnableConfigurableAlternatives_dynamic
  : DynamicRunnable RunnableConfigurableAlternatives.t := {|
  bound := RunnableConfigurableAlternatives.bound;
  _prepare := RunnableConfigurableAlternatives._prepare;
|}.

(** What the local [invoke] of [batch] keeps of a call when
    [return_exceptions] is set: the value, or the exception caught. *)
Definition captured {A} (r : result A) : A + Exn :=
  match r with Ok a => inl a | Raise e => inr e end.

(** Resolution is a function of the resolver and the configuration: which
    identities are free changes at most the identity of the unit built. *)
Class PurePrepare (Self : Type) `{!DynamicRunnable Self} : Prop :=
  prepare_pure : ∀ (self : Self) config s1 s2,
    content (_prepare self config s1) = content (_prepare self config s2).

(** [u.config_specs] *)
Definition specs_of {Input Output Kwargs : Type}
    {ops : RunnableOps Input Output Kwargs} (u : Runnable)
  : list ConfigurableFieldSpec :=
  unit_config_specs (cls u) (attrs u).

Module Fields := RunnableConfigurableFields.
Module Alts := RunnableConfigurableAlternatives.

(** The configuration [config] with key [k] left out of its ["configurable"]
    mapping. *)
Definition config_without (k : string) (config : option RunnableConfig)
  : option RunnableConfig :=
  (λ c, {| configurable := dict_del k <$> configurable c;
           max_concurrency := max_concurrency c |}) <$> config.

(** The selector entry of a configuration, when there is one. *)
Definition selector_entry (self : Alts.t) (config : option RunnableConfig)
  : option PyVal :=
  dict_get (get_configurable (config_or_empty config)) (cf_id (Alts.which self)).

(** A concrete family of units: a unit answers its class name and its
    input, batches by mapping, lists one spec per attribute, and is built
    from its keyword arguments as they are. *)
Module Demo.
#[global] Instance ops : RunnableOps nat (string * nat) unit := {|
  unit_invoke := λ c a x _ _,
    if bool_decide (a !! "fail" = Some (VBool true)) then Raise (UnitError c)
    else Ok (c, x);
  unit_batch := λ c a xs _ _ _, Ok ((λ x, inl (c, x)) <$> xs);
  unit_config_specs := λ c a,
    (λ kv, {| cfs_id := kv.1; cfs_name := None; cfs_description := None;
              cfs_default := kv.2; cfs_annotation := ANamed "Any" |})
      <$> map_to_list a;
  unit_new := λ c kw, Ok kw;
|}.

Definition A : Runnable := {| uid := 1; cls := "A"; attrs := ∅ |}.
Definition B : Runnable :=
  {| uid := 2; cls := "B"; attrs := {[ "fail" := VBool true ]} |}.
Definition C : Runnable :=
  {| uid := 3; cls := "C"; attrs := {[ "temperature" := VInt 7; "top_p" := VInt 1 ]} |}.

Definition llm : ConfigurableField :=
  {| cf_id := "llm"; cf_name := Some "LLM"; cf_description := None;
     cf_annotation := None |}.

(** [C.configurable_alternatives(llm, fast=A, slow=B)] *)
Definition selector : Alts.t :=
  {| Alts.bound := C; Alts.which := llm;
     Alts.alternatives := [("fast", A); ("slow", B)] |}.

(** [C.configurable_fields(temperature=ConfigurableField(id="temperature"))] *)
Definition overrider : Fields.t :=
  {| Fields.bound := C;
     Fields.fields :=
       [("temperature",
         {| cf_id := "temperature"; cf_name := None; cf_description := None;
            cf_annotation := None |})] |}.

Definition cfg (items : pydict PyVal) : RunnableConfig :=
  {| configurable := Some items; max_concurrency := None |}.

(** Some next free identity, above those of [A], [B] and [C]. *)
Definition s0 : positive := 10.
End Demo.

(** ** The rest of the module

    The other entry points of [DynamicRunnable] and the other methods of the
    two resolvers, with what they consume from their collaborators. *)

(** [{**d, key: value}]: an existing key keeps its place and takes the new
    value, a new key goes last. *)
Fixpoint dict_set {V} (d : pydict V) (k : string) (v : V) : pydict V :=
  match d with
  | [] => [(k, v)]
  | (k', v') :: d' =>
      if bool_decide (k' = k) then (k', v) :: d'
      else (k', v') :: dict_set d' k v
  end.

(** [{**d, **kwargs}] *)
Definition dict_update {V} (d kwargs : pydict V) : pydict V :=
  foldl (λ acc kv, dict_set acc kv.1 kv.2) d kwargs.

(** [s.split(sep)] for a one-character separator. *)
Fixpoint py_split (sep : ascii) (s : string) : list string :=
  match s with
  | EmptyString => [EmptyString]
  | String c s' =>
      if Ascii.eqb c sep then EmptyString :: py_split sep s'
      else match py_split sep s' with
           | w :: ws => String c w :: ws
           | [] => [String c EmptyString]
           end
  end.

(** [DynamicRunnable.get_lc_namespace], on the value of [cls.__module__]:
    [cls.__module__.split(".")[:-1]]. *)
Definition get_lc_namespace (module : string) : list string :=
  removelast (py_split "."%char module).

(** The asynchronous primitives of a unit, and [gather_with_concurrency] of
    [runnable/utils.py], taken as it is: a coroutine stands for what awaiting
    it gives. *)
Class RunnableAsyncOps (Input Output Kwargs : Type) : Type := {
  (** [await unit.ainvoke(input, config, **kwargs)] *)
  unit_ainvoke : string → gmap string PyVal → Input → option RunnableConfig →
                 Kwargs → result Output;
  (** [await unit.abatch(inputs, config, return_exceptions=..., **kwargs)] *)
  unit_abatch : string → gmap string PyVal → list Input → ConfigArg → bool →
                Kwargs → result (list (Output + Exn));
  (** [await gather_with_concurrency(n, *coros)] *)
  gather_with_concurrency : option Z → list (result (Output + Exn)) →
                            result (list (Output + Exn));
}.

(** The streaming primitives of a unit; the iterators are passed through
    as they are. *)
Class RunnableStreamOps (Input Kwargs InStream OutStream : Type) : Type := {
  (** [unit.stream(input, config, **kwargs)] *)
  unit_stream : string → gmap string PyVal → Input → option RunnableConfig →
                Kwargs → result OutStream;
  (** [unit.transform(input, config, **kwargs)] *)
  unit_transform : string → gmap string PyVal → InStream →
                   option RunnableConfig → Kwargs → result OutStream;
}.

(** What the resolvers read of the bound unit's class, and the bound unit's
    own [configurable_fields]. *)
Class RunnableFieldOps : Type := {
  (** [cls.__fields__[name]]: its [field_info.description] and its
      [annotation]; [None] when the class has no such field. *)
  unit_field_info : string → string → option (option string * Annotation);
  (** [unit.configurable_fields] on keyword arguments *)
  unit_configurable_fields : Runnable → pydict ConfigurableField → M Runnable;
}.

(** [map(f, la, lb, lc)] *)
Fixpoint map3 {A B C R} (f : A → B → C → R)
    (la : list A) (lb : list B) (lc : list C) : list R :=
  match la, lb, lc with
  | a :: la', b :: lb', c :: lc' => f a b c :: map3 f la' lb' lc'
  | _, _, _ => []
  end.

Section AsyncDispatch.
Context {Input Output Kwargs : Type}
  {aops : RunnableAsyncOps Input Output Kwargs}.
Context {Self : Type} {dyn : DynamicRunnable Self}.

Definition run_ainvoke (u : Runnable) (input : Input)
    (config : option RunnableConfig) (kwargs : Kwargs) : result Output :=
  unit_ainvoke (cls u) (attrs u) input config kwargs.

Definition ainvoke (self : Self) (input : Input)
    (config : option RunnableConfig) (kwargs : Kwargs) : M Output :=
  u ← _prepare self config;
  liftR (run_ainvoke u input config kwargs).

(** The local coroutine function [ainvoke] of [abatch]. *)
Definition abatch_ainvoke (return_exceptions : bool) (kwargs : Kwargs)
    (bound : Runnable) (input : Input) (config : RunnableConfig)
  : result (Output + Exn) :=
  if return_exceptions then
    match run_ainvoke bound input (Some config) kwargs with
    | Ok o => Ok (inl o)
    | Raise e => Ok (inr e)
    end
  else result_map inl (run_ainvoke bound input (Some config) kwargs).

Definition abatch (self : Self) (inputs : list Input) (config : ConfigArg)
    (return_exceptions : bool) (kwargs : Kwargs) : M (list (Output + Exn)) :=
  configs ← liftR (get_config_list config (length inputs));
  prepared ← mapM (λ c, _prepare self (Some c)) configs;
  if forallb (λ p, is_ p (bound self)) prepared then
    liftR (unit_abatch (cls (bound self)) (attrs (bound self))
             inputs config return_exceptions kwargs)
  else
    match inputs with
    | [] => mret []
    | _ =>
      configs ← liftR (get_config_list config (length inputs));
      let coros := map3 (abatch_ainvoke return_exceptions kwargs)
                     prepared inputs configs in
      match configs with
      | c0 :: _ => liftR (gather_with_concurrency (max_concurrency c0) coros)
      | [] => liftR (Raise (IndexError "list index out of range"))
      end
    end.
End AsyncDispatch.

Section StreamDispatch.
Context {Input Kwargs InStream OutStream : Type}
  {sops : RunnableStreamOps Input Kwargs InStream OutStream}.
Context {Self : Type} {dyn : DynamicRunnable Self}.

Definition stream (self : Self) (input : Input)
    (config : option RunnableConfig) (kwargs : Kwargs) : M OutStream :=
  u ← _prepare self config;
  liftR (unit_stream (cls u) (attrs u) input config kwargs).

Definition transform (self : Self) (input : InStream)
    (config : option RunnableConfig) (kwargs : Kwargs) : M OutStream :=
  u ← _prepare self config;
  liftR (unit_transform (cls u) (attrs u) input config kwargs).
End StreamDispatch.

(** The other methods of [RunnableConfigurableFields]. *)
Module FieldsMethods.
Section methods.
Context {fops : RunnableFieldOps}.

(** [s or other] for an optional string [s]. *)
Definition str_or (s : option string) (other : result (option string))
  : result (option string) :=
  match s with
  | Some d => if bool_decide (d = "") then other else Ok (Some d)
  | None => other
  end.

(** [self.bound.__fields__[field_name]] *)
Definition bound_field (self : Fields.t) (field_name : string)
  : result (option string * Annotation) :=
  match unit_field_info (cls (Fields.bound self)) field_name with
  | Some info => Ok info
  | None => Raise (UnitError "KeyError")
  end.

(** [getattr(self.bound, field_name)]: the value the attribute set holds
    for the name; a unit without the attribute raises. *)
Definition bound_getattr (self : Fields.t) (field_name : string)
  : result PyVal :=
  match attrs (Fields.bound self) !! field_name with
  | Some v => Ok v
  | None => Raise (UnitError "AttributeError")
  end.

(** One element of the comprehension of [config_specs]. *)
Definition config_spec (self : Fields.t) (item : string * ConfigurableField)
  : result ConfigurableFieldSpec :=
  let field_name := item.1 in
  let spec := item.2 in
  result_bind
    (str_or (cf_description spec) (result_map fst (bound_field self field_name)))
    (λ description,
  result_bind
    (match cf_annotation spec with
     | Some a => Ok a
     | None => result_map snd (bound_field self field_name)
     end)
    (λ annotation,
  result_bind (bound_getattr self field_name)
    (λ default,
  Ok {| cfs_id := cf_id spec;
        cfs_name := cf_name spec;
        cfs_description := description;
        cfs_default := default;
        cfs_annotation := annotation |}))).

Fixpoint config_specs_of (self : Fields.t) (items : pydict ConfigurableField)
  : result (list ConfigurableFieldSpec) :=
  match items with
  | [] => Ok []
  | item :: items' =>
      result_bind (config_spec self item) (λ spec,
        result_map (cons spec) (config_specs_of self items'))
  end.

Definition config_specs (self : Fields.t)
  : result (list ConfigurableFieldSpec) :=
  config_specs_of self (Fields.fields self).

Definition configurable_fields (self : Fields.t)
    (kwargs : pydict ConfigurableField) : M Runnable :=
  unit_configurable_fields (Fields.bound self)
    (dict_update (Fields.fields self) kwargs).
End methods.
End FieldsMethods.

(** The other method of [RunnableConfigurableAlternatives]. *)
Module AltsMethods.
Section methods.
Context {fops : RunnableFieldOps}.

Definition configurable_fields (self : Alts.t)
    (kwargs : pydict ConfigurableField) : M Alts.t :=
  b ← unit_configurable_fields (Alts.bound self) kwargs;
  mret {| Alts.which := Alts.which self;
          Alts.bound := b;
          Alts.alternatives := Alts.alternatives self |}.
End methods.
End AltsMethods.

(** What one element of the comprehension holds once it is built. *)
Definition spec_of_field {fops : RunnableFieldOps} (self : Fields.t)
    (item : string * ConfigurableField) (sp : ConfigurableFieldSpec) : Prop :=
  cfs_id sp = cf_id item.2
  ∧ cfs_name sp = cf_name item.2
  ∧ attrs (Fields.bound self) !! item.1 = Some (cfs_default sp)
  ∧ (∀ d, cf_description item.2 = Some d → d ≠ "" →
          cfs_description sp = Some d)
  ∧ (cf_description item.2 = None ∨ cf_description item.2 = Some "" →
     ∃ info, unit_field_info (cls (Fields.bound self)) item.1 = Some info
             ∧ cfs_description sp = info.1)
  ∧ (∀ a, cf_annotation item.2 = Some a → cfs_annotation sp = a)
  ∧ (cf_annotation item.2 = None →
     ∃ info, unit_field_info (cls (Fields.bound self)) item.1 = Some info
             ∧ cfs_annotation sp = info.2).

(** The configuration that sets every listed spec to its listed default. *)
Definition defaults_config (specs : list ConfigurableFieldSpec)
  : RunnableConfig :=
  {| configurable := Some ((λ sp, (cfs_id sp, cfs_default sp)) <$> specs);
     max_concurrency := None |}.

(** Concrete collaborators for the rest of the module. *)
Module DemoMore.
#[global] Instance aops : RunnableAsyncOps nat (string * nat) unit := {|
  unit_ainvoke := λ c a x _ _,
    if bool_decide (a !! "fail" = Some (VBool true)) then Raise (UnitError c)
    else Ok (c, x);
  unit_abatch := λ c a xs _ _ _, Ok ((λ x, inl (c, x)) <$> xs);
  gather_with_concurrency := λ n coros,
    foldr (λ r acc, result_bind r (λ x, result_map (cons x) acc)) (Ok []) coros;
|}.

#[global] Instance sops : RunnableStreamOps nat unit (list nat) (list (string * nat)) := {|
  unit_stream := λ c a x _ _, Ok [(c, x)];
  unit_transform := λ c a xs _ _, Ok ((λ x, (c, x)) <$> xs);
|}.

#[global] Instance fops : RunnableFieldOps := {|
  unit_field_info := λ c name,
    if bool_decide (c = "C" ∧ name = "temperature")
    then Some (Some "sampling temperature", ANamed "float")
    else if bool_decide (c = "C" ∧ name = "top_p")
    then Some (None, ANamed "float")
    else None;
  unit_configurable_fields := λ u kw s,
    Ok ({| uid := s; cls := "RunnableConfigurableFields"; attrs := attrs u |},
        Pos.succ s);
|}.

Definition temperature : ConfigurableField :=
  {| cf_id := "llm_temperature"; cf_name := None; cf_description := None;
     cf_annotation := None |}.
Definition top_p : ConfigurableField :=
  {| cf_id := "llm_top_p"; cf_name := Some "Top p";
     cf_description := Some "nucleus"; cf_annotation := None |}.

(** [C.configurable_fields(temperature=..., top_p=...)] *)
Definition overrider : Fields.t :=
  {| Fields.bound := Demo.C;
     Fields.fields := [("temperature", temperature); ("top_p", top_p)] |}.
End DemoMore.

(** ** Dictionaries *)

Lemma dict_get_del_eq {V} (d : pydict V) k : dict_get (dict_del k d) k = None.
Proof.
  induction d as [|[k' v] d IH]; [done|].
  unfold dict_del in *. rewrite filter_cons. simpl.
  destruct (decide (k' ≠ k)) as [Hne|Heq]; simpl; [|done].
  by rewrite bool_decide_eq_false_2.
Qed.

Lemma dict_get_del_ne {V} (d : pydict V) k k' :
  k ≠ k' → dict_get (dict_del k d) k' = dict_get d k'.
Proof.
  intros Hk. induction d as [|[k0 v] d IH]; [done|].
  unfold dict_del in *. rewrite filter_cons. simpl.
  destruct (decide (k0 ≠ k)) as [Hne|Heq]; simpl.
  - by rewrite IH.
  - apply dec_stable in Heq. subst k0.
    by rewrite bool_decide_eq_false_2.
Qed.

Lemma dict_get_Some_elem {V} (d : pydict V) k v :
  dict_get d k = Some v → (k, v) ∈ d.
Proof.
  induction d as [|[k' v'] d IH]; simpl; [done|].
  case_bool_decide; intros ?; simplify_eq; [left|right; auto].
Qed.

Lemma dict_get_None_keys {V} (d : pydict V) k :
  dict_get d k = None ↔ k ∉ dict_keys d.
Proof.
  unfold dict_keys. induction d as [|[k' v'] d IH]; simpl.
  - split; [intros _; apply not_elem_of_nil|done].
  - rewrite not_elem_of_cons. case_bool_decide as Hk; [subst k'|].
    + split; [done|]. by intros [? _].
    + rewrite IH. split; [by intros ?|by intros [_ ?]].
Qed.

Lemma dict_get_elem_wf {V} (d : pydict V) k v :
  dict_wf d → (k, v) ∈ d → dict_get d k = Some v.
Proof.
  unfold dict_wf. induction d as [|[k' v'] d IH]; simpl.
  - intros _ H. by apply elem_of_nil in H.
  - rewrite NoDup_cons. intros [Hk Hd] [Heq|Hin]%elem_of_cons.
    + simplify_eq. by rewrite bool_decide_eq_true_2.
    + case_bool_decide; [|auto]. subst k'.
      exfalso. apply Hk. apply list_elem_of_fmap. by exists (k, v).
Qed.

(** ** Resolution by [RunnableConfigurableAlternatives] *)

Lemma alts_prepare_unfold self config s :
  Alts._prepare self config s =
    if negb (truthy (Alts.selected self config)) then Ok (Alts.bound self, s)
    else match Alts.alternative self (Alts.selected self config) with
         | Some alt => Ok (alt, s)
         | None => Raise (ValueError ("Unknown alternative: "
                                        +:+ py_str (Alts.selected self config)))
         end.
Proof.
  unfold Alts._prepare. destruct (negb _); [done|].
  by destruct (Alts.alternative _ _).
Qed.

(** C1: [_prepare] of [RunnableConfigurableAlternatives] splits three ways
    on the selector value read from the ["configurable"] mapping under the
    selector's id. Absent or empty (falsy): the bound unit. Equal to a
    registered alternative key: that alternative, as registered, and no
    object is built. Otherwise: [ValueError] whose message ends with the
    offending value. *)
Theorem alternatives_prepare_cases
    (self : Alts.t) (config : option RunnableConfig) (s : positive) :
  ((selector_entry self config = None
    ∨ ∃ v, selector_entry self config = Some v ∧ truthy v = false) →
   Alts._prepare self config s = Ok (Alts.bound self, s))
  ∧ (∀ k alt,
       selector_entry self config = Some (VStr k) → truthy (VStr k) = true →
       dict_get (Alts.alternatives self) k = Some alt →
       Alts._prepare self config s = Ok (alt, s))
  ∧ (∀ v,
       selector_entry self config = Some v → truthy v = true →
       (∀ k, v = VStr k → dict_get (Alts.alternatives self) k = None) →
       Alts._prepare self config s
       = Raise (ValueError ("Unknown alternative: " +:+ py_str v))).
Proof.
  rewrite alts_prepare_unfold. unfold Alts.selected, selector_entry.
  repeat split.
  - intros [-> | (v & -> & Hv)]; simpl; [done|]. by rewrite Hv.
  - intros k alt -> Hk Hal. simpl in *. rewrite Hk. simpl. by rewrite Hal.
  - intros v -> Hv Hreg. simpl. rewrite Hv. simpl.
    destruct v as [| | |k]; simpl; try done.
    by rewrite (Hreg k eq_refl).
Qed.

Lemma alternatives_prepare_cases_witness :
  Alts._prepare Demo.selector None Demo.s0 = Ok (Demo.C, Demo.s0)
  ∧ Alts._prepare Demo.selector (Some (Demo.cfg [("llm", VStr "fast")])) Demo.s0
    = Ok (Demo.A, Demo.s0)
  ∧ Alts._prepare Demo.selector (Some (Demo.cfg [("llm", VStr "bogus")])) Demo.s0
    = Raise (ValueError "Unknown alternative: bogus").
Proof.
  split; [|split].
  - apply (proj1 (alternatives_prepare_cases Demo.selector None Demo.s0)).
    by left.
  - apply (proj1 (proj2 (alternatives_prepare_cases Demo.selector
                (Some (Demo.cfg [("llm", VStr "fast")])) Demo.s0)) "fast");
      reflexivity.
  - apply (proj2 (proj2 (alternatives_prepare_cases Demo.selector
                (Some (Demo.cfg [("llm", VStr "bogus")])) Demo.s0)) (VStr "bogus"));
      [reflexivity|reflexivity|].
    intros k [= <-]. reflexivity.
Defined.

Lemma selector_entry_without self config :
  selector_entry self (config_without (cf_id (Alts.which self)) config) = None.
Proof.
  unfold selector_entry, config_without, get_configurable.
  destruct config as [[[items|] mc]|]; simpl; try done.
  apply dict_get_del_eq.
Qed.

(** C10: a falsy selector value present in the configuration (the empty
    string, [0], [False], [None]) resolves to the bound unit, exactly as
    the configuration without the selector key does; [_prepare] raises only
    for a truthy value that is no registered alternative key, and then what
    it raises is the unknown-alternative [ValueError]. *)
Theorem alternatives_prepare_falsy
    (self : Alts.t) (config : option RunnableConfig) (s : positive) :
  (∀ v, v ∈ [VStr ""; VInt 0; VBool false; VNone] → truthy v = false)
  ∧ (∀ v, selector_entry self config = Some v → truthy v = false →
       Alts._prepare self config s = Ok (Alts.bound self, s)
       ∧ Alts._prepare self config s
         = Alts._prepare self
             (config_without (cf_id (Alts.which self)) config) s)
  ∧ (∀ e, Alts._prepare self config s = Raise e →
       ∃ v, selector_entry self config = Some v ∧ truthy v = true
            ∧ Alts.alternative self v = None
            ∧ e = ValueError ("Unknown alternative: " +:+ py_str v)).
Proof.
  split; [|split].
  - intros v Hv. repeat (apply elem_of_cons in Hv as [->|Hv]; [done|]).
    by apply elem_of_nil in Hv.
  - intros v Hsel Hv.
    rewrite !alts_prepare_unfold. unfold Alts.selected.
    fold (selector_entry self config).
    fold (selector_entry self (config_without (cf_id (Alts.which self)) config)).
    rewrite selector_entry_without, Hsel. simpl. by rewrite Hv.
  - intros e. rewrite alts_prepare_unfold. unfold Alts.selected.
    fold (selector_entry self config).
    destruct (selector_entry self config) as [v|]; simpl; [|done].
    destruct (truthy v) eqn:Hv; simpl; [|done].
    destruct (Alts.alternative self v) eqn:Ha; [done|].
    intros [= <-]. by exists v.
Qed.

Lemma alternatives_prepare_falsy_witness :
  Alts._prepare Demo.selector (Some (Demo.cfg [("llm", VInt 0)])) Demo.s0
  = Ok (Demo.C, Demo.s0)
  ∧ ∃ v, selector_entry Demo.selector (Some (Demo.cfg [("llm", VInt 5)])) = Some v
         ∧ truthy v = true.
Proof.
  split.
  - apply (proj1 (proj2 (alternatives_prepare_falsy Demo.selector
             (Some (Demo.cfg [("llm", VInt 0)])) Demo.s0)) (VInt 0));
      reflexivity.
  - destruct (proj2 (proj2 (alternatives_prepare_falsy Demo.selector
             (Some (Demo.cfg [("llm", VInt 5)])) Demo.s0))
             (ValueError "Unknown alternative: 5") eq_refl)
      as (v & Hsel & Hv & _).
    exists v. by split.
Defined.

(** ** [config_specs] of [RunnableConfigurableAlternatives] *)

Section alternatives_specs.
Context {Input Output Kwargs : Type} {ops : RunnableOps Input Output Kwargs}.

Lemma length_specs_bind (units : list Runnable) :
  length (u ← units; specs_of u)
  = sum_list ((λ u, length (specs_of u)) <$> units).
Proof.
  induction units as [|u units IH]; [done|].
  rewrite bind_cons, length_app, IH. reflexivity.
Qed.

(** C9: [config_specs] lists the selector's own spec first (its id, name
    and description are those of [which]; its annotation is the union of
    the literals of the alternative keys and of ["default"]; its default
    is ["default"]), then the bound unit's specs, then the specs of each
    alternative in registration order; its length is 1 plus the bound
    unit's spec count plus the sum of the alternatives' spec counts. *)
Theorem alternatives_config_specs (self : Alts.t) :
  ∃ sel members,
    Alts.config_specs self
    = sel :: specs_of (Alts.bound self)
          ++ (alt ← dict_values (Alts.alternatives self); specs_of alt)
    ∧ cfs_id sel = cf_id (Alts.which self)
    ∧ cfs_name sel = cf_name (Alts.which self)
    ∧ cfs_description sel = cf_description (Alts.which self)
    ∧ cfs_default sel = VStr "default"
    ∧ cfs_annotation sel = AUnion members
    ∧ (∀ a, a ∈ members ↔
            ∃ k, a = ALiteral k
                 ∧ (k ∈ dict_keys (Alts.alternatives self) ∨ k = "default"))
    ∧ length (Alts.config_specs self)
      = 1 + length (specs_of (Alts.bound self))
        + sum_list ((λ alt, length (specs_of alt))
                      <$> dict_values (Alts.alternatives self)).
Proof.
  eexists _, _. split; [reflexivity|]. simpl.
  repeat (split; [reflexivity|]). split.
  - intros a. unfold Alts.which_keys.
    rewrite elem_of_app, list_elem_of_fmap, list_elem_of_singleton.
    split.
    + intros [(k & -> & Hk) | ->]; [exists k|exists "default"]; auto.
    + intros (k & -> & [Hk | ->]); [left; by exists k|by right].
  - unfold Alts.config_specs. simpl. rewrite length_app, length_specs_bind.
    reflexivity.
Qed.
End alternatives_specs.

(** ** Resolution by [RunnableConfigurableFields] *)

Lemma specs_by_id_acc_lookup (fields : pydict ConfigurableField)
    (m : gmap string (string * ConfigurableField)) k ks :
  foldl (λ m ks, <[cf_id ks.2 := ks]> m) m fields !! k = Some ks →
  (ks ∈ fields ∧ cf_id ks.2 = k) ∨ m !! k = Some ks.
Proof.
  revert m. induction fields as [|x fields IH]; intros m; simpl; [by right|].
  intros [[Hin Hid] | Hm]%IH.
  - left. split; [by right|done].
  - destruct (decide (cf_id x.2 = k)) as [Hk|Hk].
    + rewrite Hk, lookup_insert_eq in Hm. simplify_eq. left. split; [left|done].
    + rewrite lookup_insert_ne in Hm by done. by right.
Qed.

Lemma specs_by_id_lookup (fields : pydict ConfigurableField) k ks :
  Fields.specs_by_id fields !! k = Some ks → ks ∈ fields ∧ cf_id ks.2 = k.
Proof.
  intros [?|Hm]%specs_by_id_acc_lookup; [done|].
  by rewrite lookup_empty in Hm.
Qed.

Lemma specs_by_id_acc_untouched (fields : pydict ConfigurableField)
    (m : gmap string (string * ConfigurableField)) k :
  k ∉ (cf_id <$> dict_values fields) →
  foldl (λ m ks, <[cf_id ks.2 := ks]> m) m fields !! k = m !! k.
Proof.
  unfold dict_values. revert m.
  induction fields as [|x fields IH]; intros m; simpl; [done|].
  rewrite not_elem_of_cons. intros [Hx Hk].
  rewrite IH by done. by rewrite lookup_insert_ne.
Qed.

Lemma specs_by_id_acc_is_Some (fields : pydict ConfigurableField)
    (m : gmap string (string * ConfigurableField)) k :
  k ∈ (cf_id <$> dict_values fields) ∨ is_Some (m !! k) →
  is_Some (foldl (λ m ks, <[cf_id ks.2 := ks]> m) m fields !! k).
Proof.
  unfold dict_values. revert m.
  induction fields as [|x fields IH]; intros m.
  - intros [Hin|Hm]; [by apply elem_of_nil in Hin|done].
  - rewrite !fmap_cons, elem_of_cons. simpl. intros Hk. apply IH.
    destruct (decide (cf_id x.2 = k)) as [<-|Hne].
    + right. by rewrite lookup_insert_eq.
    + rewrite lookup_insert_ne by done.
      destruct Hk as [[Heq|Hin]|Hm]; [by destruct Hne|by left|by right].
Qed.

Lemma specs_by_id_declared (fields : pydict ConfigurableField) f spec :
  (f, spec) ∈ fields → is_Some (Fields.specs_by_id fields !! cf_id spec).
Proof.
  intros Hin. apply specs_by_id_acc_is_Some. left.
  apply list_elem_of_fmap. exists spec. split; [done|].
  apply list_elem_of_fmap. by exists (f, spec).
Qed.

Lemma specs_by_id_unique (fields : pydict ConfigurableField) f spec :
  NoDup (cf_id <$> dict_values fields) → (f, spec) ∈ fields →
  Fields.specs_by_id fields !! cf_id spec = Some (f, spec).
Proof.
  unfold Fields.specs_by_id, dict_values. generalize (∅ : gmap string (string * ConfigurableField)).
  induction fields as [|x fields IH]; intros m.
  - intros _ H. by apply elem_of_nil in H.
  - rewrite !fmap_cons, NoDup_cons. intros [Hx Hnd] [Heq|Hin]%elem_of_cons.
    + subst x. simpl in *. rewrite specs_by_id_acc_untouched by done.
      by rewrite lookup_insert_eq.
    + simpl. by apply IH.
Qed.

(** One step of the comprehension that builds [configurable] in
    [RunnableConfigurableFields._prepare]. *)
Lemma overrides_acc_untouched (by_id : gmap string (string * ConfigurableField))
    (items : pydict PyVal) (m : gmap string PyVal) f :
  (∀ k v spec, (k, v) ∈ items → by_id !! k ≠ Some (f, spec)) →
  foldl (λ m kv, match by_id !! kv.1 with
                 | Some ks => <[ks.1 := kv.2]> m
                 | None => m
                 end) m items !! f = m !! f.
Proof.
  revert m. induction items as [|[k v] items IH]; intros m Hno; simpl; [done|].
  rewrite IH.
  - destruct (by_id !! k) as [[f' spec]|] eqn:Hk; [|done]. simpl.
    apply lookup_insert_ne. intros ->. apply (Hno k v spec); [left|done].
  - intros k' v' spec Hin. apply (Hno k' v' spec). by right.
Qed.

Lemma overrides_acc_lookup (by_id : gmap string (string * ConfigurableField))
    (items : pydict PyVal) (m : gmap string PyVal) f k spec v :
  (∀ k1 k2 s1 s2,
     by_id !! k1 = Some (f, s1) → by_id !! k2 = Some (f, s2) → k1 = k2) →
  dict_wf items → by_id !! k = Some (f, spec) → (k, v) ∈ items →
  foldl (λ m kv, match by_id !! kv.1 with
                 | Some ks => <[ks.1 := kv.2]> m
                 | None => m
                 end) m items !! f = Some v.
Proof.
  intros Hinj Hwf Hk. unfold dict_wf in Hwf. revert m Hwf.
  induction items as [|[k' v'] items IH]; intros m; simpl.
  - intros _ H. by apply elem_of_nil in H.
  - rewrite NoDup_cons. intros [Hk' Hnd] [Heq|Hin]%elem_of_cons.
    + simplify_eq. rewrite Hk. simpl. rewrite overrides_acc_untouched.
      * by rewrite lookup_insert_eq.
      * intros k2 v2 s2 Hin Hk2. apply Hk'.
        rewrite (Hinj _ _ _ _ Hk Hk2). apply list_elem_of_fmap.
        by exists (k2, v2).
    + by apply IH.
Qed.

Lemma overrides_del (by_id : gmap string (string * ConfigurableField))
    (items : pydict PyVal) k :
  by_id !! k = None →
  Fields.overrides by_id (dict_del k items) = Fields.overrides by_id items.
Proof.
  intros Hk. unfold Fields.overrides, dict_del.
  generalize (∅ : gmap string PyVal).
  induction items as [|[k' v'] items IH]; intros m; [done|].
  rewrite filter_cons. simpl.
  destruct (decide (k' ≠ k)) as [Hne|Heq]; simpl; [apply IH|].
  apply dec_stable in Heq. subst k'. rewrite Hk. apply IH.
Qed.

Lemma overrides_empty (by_id : gmap string (string * ConfigurableField))
    (items : pydict PyVal) :
  (∀ k, k ∈ dict_keys items → by_id !! k = None) →
  Fields.overrides by_id items = ∅.
Proof.
  intros Hno. apply map_eq. intros f. unfold Fields.overrides.
  rewrite overrides_acc_untouched; [done|].
  intros k v spec Hin Hk. rewrite Hno in Hk; [done|].
  apply list_elem_of_fmap. by exists (k, v).
Qed.

Section fields_prepare.
Context {Input Output Kwargs : Type} {ops : RunnableOps Input Output Kwargs}.

(** C5: when the configuration is absent, or has no ["configurable"]
    mapping, or that mapping has no key equal to the id of a declared
    field spec, [_prepare] returns the bound unit itself and builds no
    object. *)
Theorem fields_prepare_identity
    (self : Fields.t) (config : option RunnableConfig) (s : positive) :
  (config = None
   ∨ (∃ c, config = Some c ∧ configurable c = None)
   ∨ (∃ c items, config = Some c ∧ configurable c = Some items
        ∧ ∀ k f spec, k ∈ dict_keys items → (f, spec) ∈ Fields.fields self →
                      cf_id spec ≠ k)) →
  Fields._prepare self config s = Ok (Fields.bound self, s).
Proof.
  intros Hcfg. unfold Fields._prepare.
  rewrite overrides_empty; [by rewrite bool_decide_eq_true_2|].
  intros k Hk.
  destruct Hcfg as [-> | [(c & -> & Hc) | (c & items & -> & Hc & Hno)]];
    unfold get_configurable in Hk; simpl in Hk; rewrite ?Hc in Hk;
    simpl in Hk; try by apply elem_of_nil in Hk.
  destruct (Fields.specs_by_id (Fields.fields self) !! k)
    as [[f spec]|] eqn:Hby; [|done].
  apply specs_by_id_lookup in Hby as [Hin Hid]. simpl in Hid.
  by destruct (Hno k f spec).
Qed.

(** C6: when the ["configurable"] mapping holds a value for the id of a
    declared field spec, [_prepare] calls the constructor of the bound
    unit's class on keyword arguments made of the bound unit's attribute
    set with the matched fields replaced: a field that an id resolves to
    has the value configured under that id (with pairwise distinct ids, as
    the descriptors require, that is every declared field whose spec id is
    configured), and every name that no configured id resolves to (so every
    field no spec of which is configured) has the bound unit's value. The
    unit built from them is a new object of that class. *)
Theorem fields_prepare_rebuild
    (self : Fields.t) (c : RunnableConfig) (items : pydict PyVal)
    (s : positive) :
  dict_wf (Fields.fields self) →
  configurable c = Some items → dict_wf items →
  (∃ f spec, (f, spec) ∈ Fields.fields self
             ∧ cf_id spec ∈ dict_keys items) →
  ∃ kwargs : gmap string PyVal,
    (∀ k f spec v,
       Fields.specs_by_id (Fields.fields self) !! k = Some (f, spec) →
       dict_get items k = Some v → kwargs !! f = Some v)
    ∧ (NoDup (cf_id <$> dict_values (Fields.fields self)) →
       ∀ f spec v, (f, spec) ∈ Fields.fields self →
                   dict_get items (cf_id spec) = Some v →
                   kwargs !! f = Some v)
    ∧ (∀ f, (∀ k spec,
               Fields.specs_by_id (Fields.fields self) !! k = Some (f, spec) →
               k ∉ dict_keys items) →
            kwargs !! f = attrs (Fields.bound self) !! f)
    ∧ (∀ f, (∀ spec, (f, spec) ∈ Fields.fields self →
                     cf_id spec ∉ dict_keys items) →
            kwargs !! f = attrs (Fields.bound self) !! f)
    ∧ Fields._prepare self (Some c) s
      = match unit_new (cls (Fields.bound self)) kwargs with
        | Ok a => Ok ({| uid := s; cls := cls (Fields.bound self);
                         attrs := a |}, Pos.succ s)
        | Raise e => Raise e
        end.
Proof.
  intros Hwf Hc Hitems (f0 & spec0 & Hin0 & Hk0).
  set (by_id := Fields.specs_by_id (Fields.fields self)).
  assert (Hinj : ∀ f k1 k2 s1 s2,
             by_id !! k1 = Some (f, s1) → by_id !! k2 = Some (f, s2) →
             k1 = k2).
  { intros f k1 k2 s1 s2 [H1 <-]%specs_by_id_lookup [H2 <-]%specs_by_id_lookup.
    simpl. apply (dict_get_elem_wf _ _ _ Hwf) in H1, H2. congruence. }
  assert (Hset : ∀ k f spec v, by_id !! k = Some (f, spec) →
             dict_get items k = Some v →
             Fields.overrides by_id items !! f = Some v).
  { intros k f spec v Hk Hv. unfold Fields.overrides.
    eapply overrides_acc_lookup; [apply Hinj|done|exact Hk|].
    by apply dict_get_Some_elem. }
  assert (Hkeep : ∀ f, (∀ k spec, by_id !! k = Some (f, spec) →
                                  k ∉ dict_keys items) →
             Fields.overrides by_id items !! f = None).
  { intros f Hno. unfold Fields.overrides.
    rewrite overrides_acc_untouched; [done|].
    intros k v spec Hin Hk. apply (Hno _ _ Hk).
    apply list_elem_of_fmap. by exists (k, v). }
  exists (Fields.overrides by_id items ∪ attrs (Fields.bound self)).
  split; [|split; [|split; [|split]]].
  - intros k f spec v Hk Hv. apply lookup_union_Some_l. by eapply Hset.
  - intros Hids f spec v Hin Hv. apply lookup_union_Some_l.
    eapply Hset; [|exact Hv]. by apply specs_by_id_unique.
  - intros f Hno. apply lookup_union_r. by apply Hkeep.
  - intros f Hno. apply lookup_union_r. apply Hkeep.
    intros k spec [Hf <-]%specs_by_id_lookup. by apply Hno.
  - unfold Fields._prepare, get_configurable. simpl. rewrite Hc. simpl.
    fold by_id. rewrite bool_decide_eq_false_2; [done|].
    intros Hempty.
    destruct (specs_by_id_declared (Fields.fields self) f0 spec0 Hin0)
      as [[f spec] Hk].
    fold by_id in Hk. set (k := cf_id spec0) in *.
    destruct (dict_get items k) as [v|] eqn:Hv.
    + specialize (Hset _ _ _ _ Hk Hv). by rewrite Hempty, lookup_empty in Hset.
    + by apply dict_get_None_keys in Hv.
Qed.

(** C7: a key of the ["configurable"] mapping that is the id of no
    declared field spec (for [RunnableConfigurableAlternatives]: that is
    not the selector's id) changes nothing: resolution returns, or raises,
    exactly what it does on the configuration without that key. *)
Theorem prepare_unknown_key_ignored
    (k : string) (config : option RunnableConfig) (s : positive) :
  (∀ self : Fields.t,
     (∀ f spec, (f, spec) ∈ Fields.fields self → cf_id spec ≠ k) →
     Fields._prepare self config s
     = Fields._prepare self (config_without k config) s)
  ∧ (∀ self : Alts.t,
       cf_id (Alts.which self) ≠ k →
       Alts._prepare self config s
       = Alts._prepare self (config_without k config) s).
Proof.
  split.
  - intros self Hno. unfold Fields._prepare.
    assert (Fields.specs_by_id (Fields.fields self) !! k = None) as Hk.
    { destruct (_ !! k) as [[f spec]|] eqn:Hby; [|done].
      apply specs_by_id_lookup in Hby as [Hin Hid]. by destruct (Hno f spec). }
    destruct config as [[[items|] mc]|]; simpl; try done.
    unfold get_configurable. simpl. by rewrite overrides_del.
  - intros self Hne. rewrite !alts_prepare_unfold. unfold Alts.selected.
    destruct config as [[[items|] mc]|]; simpl; try done.
    unfold get_configurable. simpl. by rewrite dict_get_del_ne.
Qed.
End fields_prepare.

(** ** [batch] *)

Lemma get_config_list_length config n configs :
  get_config_list config n = Ok configs → length configs = n.
Proof.
  destruct config as [|c|cs]; simpl.
  - intros [= <-]. apply length_replicate.
  - intros [= <-]. apply length_replicate.
  - case_bool_decide; [|done]. by intros [= <-].
Qed.

Section executor.
Context {A B C R : Type} (f : A → B → C → result R).

Lemma executor_map_ok la lb lc rs :
  length la = length lb → length lb = length lc →
  executor_map f la lb lc = Ok rs →
  length rs = length lb
  ∧ ∀ i a b c, la !! i = Some a → lb !! i = Some b → lc !! i = Some c →
               ∃ r, f a b c = Ok r ∧ rs !! i = Some r.
Proof.
  revert lb lc rs.
  induction la as [|a la IH]; intros [|b lb] [|c lc] rs; simpl; try done.
  - intros _ _ [= <-]. split; [done|]. intros i ???? H. by destruct i.
  - intros [= Hab] [= Hbc].
    destruct (f a b c) as [r|e] eqn:Hf; simpl; [|done].
    destruct (executor_map f la lb lc) as [rs'|e] eqn:Hrec; simpl; [|done].
    intros [= <-]. destruct (IH _ _ _ Hab Hbc Hrec) as [Hlen Hlook].
    split; [simpl; by rewrite Hlen|].
    intros [|i] a' b' c'; simpl.
    + intros [= <-] [= <-] [= <-]. by exists r.
    + apply Hlook.
Qed.

Lemma executor_map_total la lb lc :
  length la = length lb → length lb = length lc →
  (∀ i a b c, la !! i = Some a → lb !! i = Some b → lc !! i = Some c →
              ∃ r, f a b c = Ok r) →
  ∃ rs, executor_map f la lb lc = Ok rs.
Proof.
  revert lb lc.
  induction la as [|a la IH]; intros [|b lb] [|c lc]; simpl; try done.
  - by exists [].
  - intros [= Hab] [= Hbc] Hall.
    destruct (Hall 0 a b c) as [r ->]; try done.
    destruct (IH lb lc Hab Hbc) as [rs ->].
    + intros i. apply (Hall (S i)).
    + by eexists.
Qed.

Lemma executor_map_raise la lb lc i a b c e :
  la !! i = Some a → lb !! i = Some b → lc !! i = Some c →
  f a b c = Raise e →
  (∀ j a' b' c', j < i → la !! j = Some a' → lb !! j = Some b' →
                 lc !! j = Some c' → ∃ r, f a' b' c' = Ok r) →
  executor_map f la lb lc = Raise e.
Proof.
  revert la lb lc.
  induction i as [|i IH]; intros [|a0 la] [|b0 lb] [|c0 lc]; simpl; try done.
  - intros [= ->] [= ->] [= ->] -> _. done.
  - intros Ha Hb Hc Hf Hall.
    destruct (Hall 0 a0 b0 c0) as [r ->]; try done; [lia|]. simpl.
    rewrite (IH la lb lc); try done.
    intros j a' b' c' Hj. apply (Hall (S j)). lia.
Qed.
End executor.

Section mapM_prepare.
Context {A B : Type} (f : A → M B).

Lemma mapM_M_cons x l s :
  mapM f (x :: l) s
  = match f x s with
    | Ok (y, s1) =>
        match mapM f l s1 with
        | Ok (k, s2) => Ok (y :: k, s2)
        | Raise e => Raise e
        end
    | Raise e => Raise e
    end.
Proof.
  simpl. unfold mbind, M_bind at 1. destruct (f x s) as [[y s1]|e]; [|done].
  unfold M_bind. by destruct (mapM f l s1) as [[k s2]|e].
Qed.

Lemma mapM_M_lookup l s l' s' :
  mapM f l s = Ok (l', s') →
  length l' = length l
  ∧ ∀ i x, l !! i = Some x → ∃ y si si', l' !! i = Some y ∧ f x si = Ok (y, si').
Proof.
  revert s l'. induction l as [|x l IH]; intros s l'.
  - intros [= <- <-]. split; [done|]. intros i x H. by destruct i.
  - rewrite mapM_M_cons.
    destruct (f x s) as [[y s1]|e] eqn:Hf; [|done].
    destruct (mapM f l s1) as [[k s2]|e] eqn:Hrec; [|done].
    intros [= <- <-]. destruct (IH _ _ Hrec) as [Hlen Hlook].
    split; [simpl; by rewrite Hlen|].
    intros [|i] x'; simpl.
    + intros [= <-]. by exists y, s, s1.
    + apply Hlook.
Qed.

Lemma mapM_M_raise l1 x l2 s ys s1 e :
  mapM f l1 s = Ok (ys, s1) → f x s1 = Raise e →
  mapM f (l1 ++ x :: l2) s = Raise e.
Proof.
  revert s ys. induction l1 as [|x1 l1 IH]; intros s ys.
  - intros [= <- <-] Hx. simpl app. rewrite mapM_M_cons. by rewrite Hx.
  - rewrite <-app_comm_cons, !mapM_M_cons.
    destruct (f x1 s) as [[y s2]|e'] eqn:Hf; [|done].
    destruct (mapM f l1 s2) as [[k s3]|e'] eqn:Hrec; [|done].
    intros [= <- <-] Hx. by rewrite (IH _ _ Hrec Hx).
Qed.
End mapM_prepare.

Section batch.
Context {Input Output Kwargs : Type} {ops : RunnableOps Input Output Kwargs}.
Context {Self : Type} {dyn : DynamicRunnable Self}.

Lemma is_bound_all (self : Self) (prepared : list Runnable) :
  forallb (λ p, is_ p (bound self)) prepared = true
  ↔ Forall (λ p, uid p = uid (bound self)) prepared.
Proof.
  induction prepared as [|p ps IH]; simpl.
  - split; [constructor|done].
  - rewrite andb_true_iff, Forall_cons, IH. unfold is_.
    by rewrite bool_decide_eq_true.
Qed.

(** [batch] once the configurations are broadcast and resolved. *)
Lemma batch_resolved (self : Self) inputs config re kw s configs prepared s' :
  get_config_list config (length inputs) = Ok configs →
  mapM (λ c, _prepare self (Some c)) configs s = Ok (prepared, s') →
  batch self inputs config re kw s
  = if forallb (λ p, is_ p (bound self)) prepared then
      liftR (unit_batch (cls (bound self)) (attrs (bound self))
               inputs config re kw) s'
    else match inputs with
         | [] => Ok ([], s')
         | _ => liftR (executor_map (batch_invoke re kw)
                         prepared inputs configs) s'
         end.
Proof.
  intros Hcfg Hprep. unfold batch. unfold mbind at 1, M_bind at 1.
  rewrite Hcfg. simpl liftR at 1. cbv beta iota.
  unfold mbind at 1, M_bind at 1. rewrite Hprep.
  destruct (forallb _ prepared); [done|].
  destruct inputs as [|x inputs]; [done|].
  unfold mbind at 1, M_bind at 1. simpl liftR at 1. cbv beta iota.
  apply get_config_list_length in Hcfg as Hlen.
  apply mapM_M_lookup in Hprep as [Hplen _].
  case_bool_decide as Hone; [|done].
  destruct inputs; [|done].
  destruct configs as [|c [|]]; try done.
  destruct prepared as [|p [|]]; try done.
  simpl. unfold mbind, M_bind, liftR.
  by destruct (batch_invoke re kw p x c).
Qed.

(** C2: when every unit resolved for the broadcast configurations is the
    bound unit itself, [batch] is the bound unit's own [batch] on the
    inputs, the configuration argument as given, and the
    [return_exceptions] flag; no unit is invoked item by item. *)
Theorem batch_fast_path (self : Self) (inputs : list Input)
    (config : ConfigArg) (return_exceptions : bool) (kwargs : Kwargs)
    (s : positive) configs prepared s' :
  get_config_list config (length inputs) = Ok configs →
  mapM (λ c, _prepare self (Some c)) configs s = Ok (prepared, s') →
  Forall (λ p, uid p = uid (bound self)) prepared →
  batch self inputs config return_exceptions kwargs s
  = liftR (unit_batch (cls (bound self)) (attrs (bound self))
             inputs config return_exceptions kwargs) s'.
Proof.
  intros Hcfg Hprep Hall.
  rewrite (batch_resolved _ _ _ _ _ _ _ _ _ Hcfg Hprep).
  apply is_bound_all in Hall. by rewrite Hall.
Qed.

Lemma batch_invoke_captured kw p x c :
  batch_invoke true kw p x c = Ok (captured (run_invoke p x (Some c) kw)).
Proof. unfold batch_invoke. by destruct (run_invoke _ _ _ _). Qed.

Lemma batch_invoke_ok re kw p x c o :
  run_invoke p x (Some c) kw = Ok o →
  batch_invoke re kw p x c = Ok (inl o).
Proof. unfold batch_invoke. intros ->. by destruct re. Qed.

Lemma batch_invoke_raise kw p x c e :
  run_invoke p x (Some c) kw = Raise e →
  batch_invoke false kw p x c = Raise e.
Proof. unfold batch_invoke. by intros ->. Qed.

(** What [invoke] gives on a configuration whose resolution is known. *)
Lemma invoke_resolved `{!PurePrepare Self} (self : Self) x c kw p si si' s0 :
  _prepare self (Some c) si = Ok (p, si') →
  outcome (invoke self x (Some c) kw s0) = run_invoke p x (Some c) kw.
Proof.
  intros Hp. pose proof (prepare_pure self (Some c) s0 si) as Hpure.
  rewrite Hp in Hpure. unfold invoke, mbind, M_bind.
  destruct (_prepare self (Some c) s0) as [[p' s0']|e]; [|done].
  simpl in Hpure. injection Hpure as Hcls Hattrs.
  unfold run_invoke. rewrite Hcls, Hattrs. unfold liftR, outcome.
  by destruct (unit_invoke _ _ _ _ _).
Qed.

(** C3: on the fallback path (the configurations are broadcast and all
    resolved, some resolved unit is not the bound unit itself, and the
    inputs are not empty), [batch] with [return_exceptions] set, or with
    every item's [invoke] succeeding, returns a list as long as the
    inputs whose position [i] holds what [invoke] gives on input [i] under
    configuration [i]: its value, or the exception caught. Without
    [return_exceptions], the exception of the first failing item
    propagates instead. *)
Theorem batch_fallback `{!PurePrepare Self} (self : Self)
    (inputs : list Input) (config : ConfigArg) (return_exceptions : bool)
    (kwargs : Kwargs) (s : positive) configs prepared s' :
  get_config_list config (length inputs) = Ok configs →
  mapM (λ c, _prepare self (Some c)) configs s = Ok (prepared, s') →
  Exists (λ p, uid p ≠ uid (bound self)) prepared →
  inputs ≠ [] →
  ((return_exceptions = true
    ∨ ∀ i x c, inputs !! i = Some x → configs !! i = Some c →
               ∃ o, outcome (invoke self x (Some c) kwargs s) = Ok o) →
   ∃ l, batch self inputs config return_exceptions kwargs s = Ok (l, s')
        ∧ length l = length inputs
        ∧ ∀ i x c s0, inputs !! i = Some x → configs !! i = Some c →
            l !! i = Some (captured (outcome (invoke self x (Some c) kwargs s0))))
  ∧ (return_exceptions = false →
     ∀ i x c e, inputs !! i = Some x → configs !! i = Some c →
       outcome (invoke self x (Some c) kwargs s) = Raise e →
       (∀ j x' c', j < i → inputs !! j = Some x' → configs !! j = Some c' →
                   ∃ o, outcome (invoke self x' (Some c') kwargs s) = Ok o) →
       batch self inputs config return_exceptions kwargs s = Raise e).
Proof.
  intros Hcfg Hprep Hex Hne.
  rewrite (batch_resolved _ _ _ _ _ _ _ _ _ Hcfg Hprep).
  replace (forallb _ prepared) with false; cycle 1.
  { symmetry. apply not_true_is_false. rewrite is_bound_all.
    by apply Exists_not_Forall. }
  apply get_config_list_length in Hcfg as Hlen.
  apply mapM_M_lookup in Hprep as [Hplen Hplook].
  assert (Hinv : ∀ i x c p s0, inputs !! i = Some x → configs !! i = Some c →
            prepared !! i = Some p →
            outcome (invoke self x (Some c) kwargs s0)
            = run_invoke p x (Some c) kwargs).
  { intros i x c p s0 Hx Hc Hp.
    destruct (Hplook i c Hc) as (p' & si & si' & Hp' & Hres).
    simplify_eq. by eapply invoke_resolved. }
  destruct inputs as [|x0 inputs']; [done|]. cbv iota.
  set (inputs := x0 :: inputs') in *. clearbody inputs. clear Hne.
  assert (Hlens : length prepared = length inputs) by congruence.
  assert (Hlenc : length inputs = length configs) by congruence.
  split.
  - intros Hok.
    destruct (executor_map_total
                (batch_invoke (Output:=Output) return_exceptions kwargs)
                prepared inputs configs Hlens Hlenc) as [l Hl].
    { intros i p x c Hp Hx Hc. destruct Hok as [-> | Hall].
      - rewrite batch_invoke_captured. by eexists.
      - destruct (Hall i x c Hx Hc) as [o Ho].
        rewrite (Hinv i x c p s Hx Hc Hp) in Ho.
        rewrite (batch_invoke_ok _ _ _ _ _ _ Ho). by eexists. }
    exists l. rewrite Hl. split; [done|].
    destruct (executor_map_ok _ _ _ _ _ Hlens Hlenc Hl) as [Hll Hlook].
    split; [done|].
    intros i x c s0 Hx Hc.
    destruct (lookup_lt_is_Some_2 prepared i) as [p Hp].
    { rewrite Hlens. by eapply lookup_lt_Some. }
    destruct (Hlook i p x c Hp Hx Hc) as (r & Hr & ->).
    rewrite (Hinv i x c p s0 Hx Hc Hp). f_equal.
    destruct Hok as [-> | Hall].
    + rewrite batch_invoke_captured in Hr. by injection Hr as <-.
    + destruct (Hall i x c Hx Hc) as [o Ho].
      rewrite (Hinv i x c p s Hx Hc Hp) in Ho.
      rewrite (batch_invoke_ok _ _ _ _ _ _ Ho) in Hr. injection Hr as <-.
      by rewrite Ho.
  - intros -> i x c e Hx Hc He Hbefore.
    destruct (lookup_lt_is_Some_2 prepared i) as [p Hp].
    { rewrite Hlens. by eapply lookup_lt_Some. }
    rewrite (executor_map_raise _ prepared inputs configs i p x c e); try done.
    + apply batch_invoke_raise. by rewrite <-(Hinv i x c p s Hx Hc Hp).
    + intros j p' x' c' Hj Hp' Hx' Hc'.
      destruct (Hbefore j x' c' Hj Hx' Hc') as [o Ho].
      rewrite (Hinv j x' c' p' s Hx' Hc' Hp') in Ho.
      rewrite (batch_invoke_ok _ _ _ _ _ _ Ho). by eexists.
Qed.

(** C4, as the code has it: a configuration whose resolution raises makes
    [batch] raise that exception, whatever [return_exceptions] is: the
    units are resolved before any item is invoked, outside the handler. *)
Theorem batch_resolution_failure (self : Self) (inputs : list Input)
    (config : ConfigArg) (return_exceptions : bool) (kwargs : Kwargs)
    (s : positive) (before after : list RunnableConfig) c prepared s1 e :
  get_config_list config (length inputs) = Ok (before ++ c :: after)%list →
  mapM (λ c, _prepare self (Some c)) before s = Ok (prepared, s1) →
  _prepare self (Some c) s1 = Raise e →
  batch self inputs config return_exceptions kwargs s = Raise e.
Proof.
  intros Hcfg Hprep He. unfold batch. unfold mbind at 1, M_bind at 1.
  rewrite Hcfg. simpl liftR at 1. cbv beta iota.
  unfold mbind at 1, M_bind at 1.
  by rewrite (mapM_M_raise _ _ _ _ _ _ _ _ Hprep He).
Qed.

(** C8, as the code has it: on the empty input list [batch] broadcasts the
    configuration first, so what [get_config_list] raises propagates;
    otherwise no unit is resolved and the call is the bound unit's own
    [batch] on the empty list. *)
Theorem batch_empty_inputs (self : Self) (config : ConfigArg)
    (return_exceptions : bool) (kwargs : Kwargs) (s : positive) :
  (∀ e, get_config_list config 0 = Raise e →
        batch self [] config return_exceptions kwargs s = Raise e)
  ∧ (∀ configs, get_config_list config 0 = Ok configs →
        batch self [] config return_exceptions kwargs s
        = liftR (unit_batch (cls (bound self)) (attrs (bound self))
                   [] config return_exceptions kwargs) s).
Proof.
  split.
  - intros e He. unfold batch. unfold mbind at 1, M_bind at 1.
    simpl length. by rewrite He.
  - intros configs Hcfg.
    apply get_config_list_length in Hcfg as Hlen.
    destruct configs; [|done].
    by rewrite (batch_resolved self [] config _ _ s [] [] s Hcfg eq_refl).
Qed.
End batch.

(** ** Both resolvers resolve purely *)

#[global] Instance alternatives_pure_prepare : PurePrepare Alts.t.
Proof.
  intros self config s1 s2. simpl. rewrite !alts_prepare_unfold.
  destruct (negb _); [done|]. by destruct (Alts.alternative _ _).
Qed.

#[global] Instance fields_pure_prepare
    {Input Output Kwargs : Type} {ops : RunnableOps Input Output Kwargs} :
  PurePrepare Fields.t.
Proof.
  intros self config s1 s2. simpl. unfold Fields._prepare.
  case_bool_decide; [done|]. by destruct (unit_new _ _).
Qed.

(** ** The theorems at concrete resolvers *)

Lemma fields_prepare_identity_witness :
  Fields._prepare Demo.overrider (Some (Demo.cfg [("llm", VStr "fast")])) Demo.s0
  = Ok (Demo.C, Demo.s0).
Proof.
  apply (fields_prepare_identity Demo.overrider).
  right. right. exists (Demo.cfg [("llm", VStr "fast")]), [("llm", VStr "fast")].
  split; [reflexivity|]. split; [reflexivity|].
  intros k f spec Hk Hin.
  apply list_elem_of_singleton in Hk. apply list_elem_of_singleton in Hin.
  injection Hin as -> ->. by subst k.
Defined.

Lemma fields_prepare_rebuild_witness :
  ∃ kwargs : gmap string PyVal,
    kwargs !! "temperature" = Some (VInt 9)
    ∧ kwargs !! "top_p" = Some (VInt 1)
    ∧ Fields._prepare Demo.overrider
        (Some (Demo.cfg [("temperature", VInt 9); ("k", VInt 2)])) Demo.s0
      = Ok ({| uid := Demo.s0; cls := "C"; attrs := kwargs |}, Pos.succ Demo.s0).
Proof.
  destruct (fields_prepare_rebuild Demo.overrider
              (Demo.cfg [("temperature", VInt 9); ("k", VInt 2)])
              [("temperature", VInt 9); ("k", VInt 2)] Demo.s0)
    as (kwargs & _ & Hset & _ & Hkeep & Hnew).
  - apply NoDup_singleton.
  - reflexivity.
  - apply (bool_decide_unpack _). vm_compute. exact I.
  - eexists _, _. split; [apply list_elem_of_singleton; reflexivity|]. by left.
  - exists kwargs. split; [|split].
    + eapply Hset; [apply NoDup_singleton
                   |apply list_elem_of_singleton; reflexivity|reflexivity].
    + rewrite (Hkeep "top_p"); [reflexivity|].
      intros spec Hin. apply list_elem_of_singleton in Hin. discriminate.
    + exact Hnew.
Defined.

Lemma prepare_unknown_key_ignored_witness :
  Fields._prepare Demo.overrider
    (Some (Demo.cfg [("k", VInt 2); ("temperature", VInt 9)])) Demo.s0
  = Fields._prepare Demo.overrider
      (Some (Demo.cfg [("temperature", VInt 9)])) Demo.s0
  ∧ Alts._prepare Demo.selector
      (Some (Demo.cfg [("k", VInt 2); ("llm", VStr "slow")])) Demo.s0
    = Alts._prepare Demo.selector (Some (Demo.cfg [("llm", VStr "slow")])) Demo.s0.
Proof.
  split.
  - apply (proj1 (prepare_unknown_key_ignored "k"
             (Some (Demo.cfg [("k", VInt 2); ("temperature", VInt 9)]))
             Demo.s0) Demo.overrider).
    intros f spec Hin. apply list_elem_of_singleton in Hin.
    injection Hin as -> ->. discriminate.
  - apply (proj2 (prepare_unknown_key_ignored (ops:=Demo.ops) "k"
             (Some (Demo.cfg [("k", VInt 2); ("llm", VStr "slow")]))
             Demo.s0) Demo.selector).
    discriminate.
Defined.

Lemma batch_fast_path_witness :
  batch Demo.selector [1; 2] CNone false tt Demo.s0
  = Ok ([inl ("C", 1); inl ("C", 2)], Demo.s0).
Proof.
  etrans.
  - apply (batch_fast_path Demo.selector [1; 2] CNone false tt Demo.s0
             [empty_config; empty_config] [Demo.C; Demo.C] Demo.s0);
      [reflexivity|reflexivity|].
    repeat constructor.
  - reflexivity.
Defined.

Lemma batch_fallback_witness :
  ∃ l, batch Demo.selector [1; 2; 3]
         (CList [Demo.cfg [("llm", VStr "fast")];
                 Demo.cfg [("llm", VStr "slow")]; Demo.cfg []])
         true tt Demo.s0 = Ok (l, Demo.s0)
       ∧ length l = 3
       ∧ l !! 0 = Some (inl ("A", 1))
       ∧ l !! 1 = Some (inr (UnitError "B"))
       ∧ l !! 2 = Some (inl ("C", 3)).
Proof.
  destruct (batch_fallback Demo.selector [1; 2; 3]
              (CList [Demo.cfg [("llm", VStr "fast")];
                      Demo.cfg [("llm", VStr "slow")]; Demo.cfg []])
              true tt Demo.s0
              [Demo.cfg [("llm", VStr "fast")];
               Demo.cfg [("llm", VStr "slow")]; Demo.cfg []]
              [Demo.A; Demo.B; Demo.C] Demo.s0)
    as [Hret _].
  - reflexivity.
  - reflexivity.
  - left. simpl. discriminate.
  - discriminate.
  - destruct (Hret (or_introl eq_refl)) as (l & Hb & Hlen & Hl).
    exists l. split; [exact Hb|]. split; [exact Hlen|].
    split; [|split].
    + exact (Hl 0 1 _ Demo.s0 eq_refl eq_refl).
    + exact (Hl 1 2 _ Demo.s0 eq_refl eq_refl).
    + exact (Hl 2 3 _ Demo.s0 eq_refl eq_refl).
Defined.

Lemma batch_resolution_failure_witness :
  batch Demo.selector [1; 2]
    (CList [Demo.cfg [("llm", VStr "fast")]; Demo.cfg [("llm", VStr "bogus")]])
    true tt Demo.s0
  = Raise (ValueError "Unknown alternative: bogus").
Proof.
  etrans.
  - apply (batch_resolution_failure Demo.selector [1; 2] _ true tt Demo.s0
             [Demo.cfg [("llm", VStr "fast")]] []
             (Demo.cfg [("llm", VStr "bogus")]) [Demo.A] Demo.s0);
      reflexivity.
  - reflexivity.
Defined.

(** C4, as stated, fails: with [return_exceptions] set, the second of two
    configurations selects an alternative that is not registered; [batch]
    returns no list holding that error at position 1. *)
Lemma batch_resolution_failure_not_captured :
  Alts._prepare Demo.selector (Some (Demo.cfg [("llm", VStr "bogus")])) Demo.s0
  = Raise (ValueError "Unknown alternative: bogus")
  ∧ ¬ ∃ l s',
      batch Demo.selector [1; 2]
        (CList [Demo.cfg [("llm", VStr "fast")];
                Demo.cfg [("llm", VStr "bogus")]])
        true tt Demo.s0 = Ok (l, s')
      ∧ l !! 1 = Some (inr (ValueError "Unknown alternative: bogus")).
Proof.
  split; [reflexivity|].
  intros (l & s' & Hb & _). vm_compute in Hb. discriminate.
Qed.

Lemma batch_empty_inputs_witness :
  batch Demo.selector [] (CList [Demo.cfg []]) false tt Demo.s0
  = Raise (ValueError "config must be a list of the same length as inputs")
  ∧ batch Demo.selector [] (COne (Demo.cfg [("llm", VStr "fast")])) false tt
      Demo.s0
    = Ok ([], Demo.s0).
Proof.
  split.
  - apply (proj1 (batch_empty_inputs Demo.selector (CList [Demo.cfg []])
                    false tt Demo.s0)).
    reflexivity.
  - etrans.
    + apply (proj2 (batch_empty_inputs Demo.selector
                      (COne (Demo.cfg [("llm", VStr "fast")])) false tt Demo.s0)
               []).
      reflexivity.
    + reflexivity.
Defined.

(** C8, as stated, fails: on the empty input list with a list of one
    configuration, [batch] returns no empty list; the broadcast comes first
    and rejects the list. *)
Lemma batch_empty_inputs_validates :
  ¬ ∃ s', batch Demo.selector [] (CList [Demo.cfg []]) false tt Demo.s0
          = Ok ([], s').
Proof. intros (s' & Hb). vm_compute in Hb. discriminate. Qed.

(** ** What resolution returns *)

(** X1: [_prepare] of [RunnableConfigurableAlternatives] builds no object,
    and the unit it returns is the bound unit or one of the registered
    alternatives. *)
Theorem alternatives_prepare_range
    (self : Alts.t) (config : option RunnableConfig) (s s' : positive)
    (u : Runnable) :
  Alts._prepare self config s = Ok (u, s') →
  s' = s ∧ (u = Alts.bound self ∨ u ∈ dict_values (Alts.alternatives self)).
Proof.
  rewrite alts_prepare_unfold. destruct (negb _).
  - intros [= <- <-]. by split; [|left].
  - destruct (Alts.alternative self _) as [alt|] eqn:Halt; [|done].
    intros [= <- <-]. split; [done|right].
    unfold Alts.alternative in Halt.
    destruct (Alts.selected self config) as [| | |k]; try done.
    apply dict_get_Some_elem in Halt. unfold dict_values.
    apply list_elem_of_fmap. by exists (k, alt).
Qed.

Lemma alternatives_prepare_range_witness :
  Demo.s0 = Demo.s0
  ∧ (Demo.B = Alts.bound Demo.selector
     ∨ Demo.B ∈ dict_values (Alts.alternatives Demo.selector)).
Proof.
  apply (alternatives_prepare_range Demo.selector
           (Some (Demo.cfg [("llm", VStr "slow")])) Demo.s0 Demo.s0 Demo.B).
  reflexivity.
Defined.

Lemma overrides_acc_is_Some (by_id : gmap string (string * ConfigurableField))
    (items : pydict PyVal) (m : gmap string PyVal) f :
  is_Some (m !! f)
  ∨ (∃ k v spec, (k, v) ∈ items ∧ by_id !! k = Some (f, spec)) →
  is_Some (foldl (λ m kv, match by_id !! kv.1 with
                          | Some ks => <[ks.1 := kv.2]> m
                          | None => m
                          end) m items !! f).
Proof.
  revert m. induction items as [|[k0 v0] items IH]; intros m.
  - intros [Hm|(k & v & spec & Hin & _)]; [done|by apply elem_of_nil in Hin].
  - intros Hcase. simpl. apply IH.
    destruct Hcase as [Hm|(k & v & spec & [Heq|Hin]%elem_of_cons & Hk)].
    + left. destruct (by_id !! k0) as [[f' spec']|]; [|done]. simpl.
      destruct (decide (f' = f)) as [->|Hne];
        [by rewrite lookup_insert_eq|by rewrite lookup_insert_ne].
    + simplify_eq. left. rewrite Hk. simpl. by rewrite lookup_insert_eq.
    + right. by exists k, v, spec.
Qed.

Lemma overrides_acc_lookup_inv (by_id : gmap string (string * ConfigurableField))
    (items : pydict PyVal) (m : gmap string PyVal) f v :
  foldl (λ m kv, match by_id !! kv.1 with
                 | Some ks => <[ks.1 := kv.2]> m
                 | None => m
                 end) m items !! f = Some v →
  m !! f = Some v ∨ ∃ k spec, by_id !! k = Some (f, spec) ∧ (k, v) ∈ items.
Proof.
  revert m. induction items as [|[k0 v0] items IH]; intros m; simpl.
  - by left.
  - intros [Hm|(k & spec & Hk & Hin)]%IH.
    + destruct (by_id !! k0) as [[f' spec']|] eqn:Hk0; [|by left]. simpl in Hm.
      destruct (decide (f' = f)) as [->|Hne].
      * rewrite lookup_insert_eq in Hm. simplify_eq.
        right. exists k0, spec'. split; [done|left].
      * rewrite lookup_insert_ne in Hm by done. by left.
    + right. exists k, spec. split; [done|by right].
Qed.

Lemma overrides_nonempty (fields : pydict ConfigurableField)
    (items : pydict PyVal) k f spec :
  k ∈ dict_keys items → (f, spec) ∈ fields → cf_id spec = k →
  Fields.overrides (Fields.specs_by_id fields) items ≠ ∅.
Proof.
  intros Hk Hin <- Hempty.
  destruct (specs_by_id_declared fields f spec Hin) as [[f' spec'] Hby].
  apply list_elem_of_fmap in Hk as ([k v] & Hkeq & Hkv). simpl in Hkeq. subst k.
  destruct (overrides_acc_is_Some (Fields.specs_by_id fields) items ∅ f')
    as [v' Hv'].
  { right. by exists (cf_id spec), v, spec'. }
  unfold Fields.overrides in Hempty. by rewrite Hempty, lookup_empty in Hv'.
Qed.

Section fields_range.
Context {Input Output Kwargs : Type} {ops : RunnableOps Input Output Kwargs}.

(** X2: from a state whose free identities lie above the bound unit's, the
    unit that [_prepare] of [RunnableConfigurableFields] returns has the
    bound unit's class, and it is the bound unit itself exactly when no key
    of the ["configurable"] mapping is the id of a declared field spec. *)
Theorem fields_prepare_is_bound
    (self : Fields.t) (config : option RunnableConfig) (s s' : positive)
    (u : Runnable) :
  (uid (Fields.bound self) < s)%positive →
  Fields._prepare self config s = Ok (u, s') →
  cls u = cls (Fields.bound self)
  ∧ (is_ u (Fields.bound self) = true ↔
     ∀ k f spec,
       k ∈ dict_keys (get_configurable (config_or_empty config)) →
       (f, spec) ∈ Fields.fields self → cf_id spec ≠ k).
Proof.
  intros Hfresh. unfold Fields._prepare. case_bool_decide as Hov.
  - intros [= <- <-]. split; [done|]. unfold is_.
    rewrite bool_decide_eq_true_2 by done. split; [|done].
    intros _ k f spec Hk Hin Hid.
    by apply (overrides_nonempty _ _ _ _ _ Hk Hin Hid).
  - destruct (unit_new _ _) as [a|e]; [|done].
    intros [= <- <-]. split; [done|]. unfold is_. simpl.
    rewrite bool_decide_eq_false_2 by lia. split; [done|].
    intros Hno. destruct Hov. apply overrides_empty.
    intros k Hk.
    destruct (Fields.specs_by_id (Fields.fields self) !! k)
      as [[f spec]|] eqn:Hby; [|done].
    apply specs_by_id_lookup in Hby as [Hin Hid].
    by destruct (Hno k f spec).
Qed.
End fields_range.

Lemma fields_prepare_is_bound_witness :
  cls {| uid := Demo.s0; cls := "C";
         attrs := {[ "temperature" := VInt 9; "top_p" := VInt 1 ]} |}
  = cls (Fields.bound Demo.overrider)
  ∧ (is_ {| uid := Demo.s0; cls := "C";
            attrs := {[ "temperature" := VInt 9; "top_p" := VInt 1 ]} |}
       (Fields.bound Demo.overrider) = true ↔
     ∀ k f spec,
       k ∈ dict_keys (get_configurable (config_or_empty
                        (Some (Demo.cfg [("temperature", VInt 9)])))) →
       (f, spec) ∈ Fields.fields Demo.overrider → cf_id spec ≠ k).
Proof.
  apply (fields_prepare_is_bound Demo.overrider
           (Some (Demo.cfg [("temperature", VInt 9)])) Demo.s0
           (Pos.succ Demo.s0)).
  - reflexivity.
  - vm_compute. reflexivity.
Defined.

Lemma specs_by_id_inj (fields : pydict ConfigurableField) f k1 k2 s1 s2 :
  dict_wf fields →
  Fields.specs_by_id fields !! k1 = Some (f, s1) →
  Fields.specs_by_id fields !! k2 = Some (f, s2) → k1 = k2.
Proof.
  intros Hwf [H1 <-]%specs_by_id_lookup [H2 <-]%specs_by_id_lookup. simpl.
  apply (dict_get_elem_wf _ _ _ Hwf) in H1, H2. congruence.
Qed.

Lemma overrides_lookup_iff (fields : pydict ConfigurableField)
    (items : pydict PyVal) f v :
  dict_wf fields → dict_wf items →
  Fields.overrides (Fields.specs_by_id fields) items !! f = Some v
  ↔ ∃ k spec, Fields.specs_by_id fields !! k = Some (f, spec) ∧ (k, v) ∈ items.
Proof.
  intros Hwf Hitems. unfold Fields.overrides. split.
  - intros [Hm|?]%overrides_acc_lookup_inv; [|done].
    by rewrite lookup_empty in Hm.
  - intros (k & spec & Hk & Hin).
    eapply overrides_acc_lookup; [|done|exact Hk|done].
    intros k1 k2 s1 s2. by apply specs_by_id_inj.
Qed.

Lemma specs_by_id_last (fields1 fields2 : pydict ConfigurableField) f spec :
  cf_id spec ∉ (cf_id <$> dict_values fields2) →
  Fields.specs_by_id (fields1 ++ (f, spec) :: fields2) !! cf_id spec
  = Some (f, spec).
Proof.
  intros Hlast. unfold Fields.specs_by_id. rewrite foldl_app. simpl.
  rewrite specs_by_id_acc_untouched by done. by rewrite lookup_insert_eq.
Qed.

Section fields_more.
Context {Input Output Kwargs : Type} {ops : RunnableOps Input Output Kwargs}.

(** X3: the order of the entries of the ["configurable"] mapping does not
    matter to [_prepare] of [RunnableConfigurableFields]: two mappings with
    the same entries resolve alike. *)
Theorem fields_prepare_order
    (self : Fields.t) (c c' : RunnableConfig) (items items' : pydict PyVal)
    (s : positive) :
  dict_wf (Fields.fields self) → dict_wf items → items ≡ₚ items' →
  configurable c = Some items → configurable c' = Some items' →
  Fields._prepare self (Some c) s = Fields._prepare self (Some c') s.
Proof.
  intros Hwf Hitems Hperm Hc Hc'.
  assert (Hitems' : dict_wf items').
  { unfold dict_wf in *. by rewrite <-Hperm. }
  unfold Fields._prepare, get_configurable. simpl. rewrite Hc, Hc'. simpl.
  replace (Fields.overrides (Fields.specs_by_id (Fields.fields self)) items')
    with (Fields.overrides (Fields.specs_by_id (Fields.fields self)) items);
    [done|].
  apply map_eq. intros f. apply option_eq. intros v.
  rewrite !overrides_lookup_iff by done.
  by setoid_rewrite Hperm.
Qed.

(** X4: when several declared fields carry the same spec id, a value
    configured under that id goes to the field declared last and to no
    other: [_prepare] calls the constructor on the bound unit's attribute
    set with that one field replaced. *)
Theorem fields_prepare_duplicate_id
    (self : Fields.t) (c : RunnableConfig) (s : positive)
    (fields1 fields2 : pydict ConfigurableField) f spec v :
  Fields.fields self = (fields1 ++ (f, spec) :: fields2)%list →
  cf_id spec ∉ (cf_id <$> dict_values fields2) →
  configurable c = Some [(cf_id spec, v)] →
  Fields._prepare self (Some c) s
  = match unit_new (cls (Fields.bound self))
            (<[f := v]> (attrs (Fields.bound self))) with
    | Ok a => Ok ({| uid := s; cls := cls (Fields.bound self); attrs := a |},
                  Pos.succ s)
    | Raise e => Raise e
    end.
Proof.
  intros Hfields Hlast Hc.
  unfold Fields._prepare, get_configurable. simpl. rewrite Hc, Hfields. simpl.
  unfold Fields.overrides. simpl. rewrite specs_by_id_last by done. simpl.
  rewrite bool_decide_eq_false_2 by apply insert_non_empty.
  by rewrite <-insert_union_l, (left_id_L ∅ (∪)).
Qed.
End fields_more.

Lemma fields_prepare_order_witness :
  Fields._prepare Demo.overrider
    (Some (Demo.cfg [("temperature", VInt 9); ("k", VInt 2)])) Demo.s0
  = Fields._prepare Demo.overrider
      (Some (Demo.cfg [("k", VInt 2); ("temperature", VInt 9)])) Demo.s0.
Proof.
  apply (fields_prepare_order Demo.overrider _ _
           [("temperature", VInt 9); ("k", VInt 2)]
           [("k", VInt 2); ("temperature", VInt 9)]).
  - apply NoDup_singleton.
  - apply (bool_decide_unpack _). vm_compute. exact I.
  - apply perm_swap.
  - reflexivity.
  - reflexivity.
Defined.

Lemma fields_prepare_duplicate_id_witness :
  Fields._prepare
    {| Fields.bound := Demo.C;
       Fields.fields := [("temperature", Demo.llm); ("top_p", Demo.llm)] |}
    (Some (Demo.cfg [("llm", VInt 5)])) Demo.s0
  = Ok ({| uid := Demo.s0; cls := "C";
           attrs := <[ "top_p" := VInt 5 ]> (attrs Demo.C) |}, Pos.succ Demo.s0).
Proof.
  etrans.
  - apply (fields_prepare_duplicate_id
             {| Fields.bound := Demo.C;
                Fields.fields := [("temperature", Demo.llm); ("top_p", Demo.llm)] |}
             (Demo.cfg [("llm", VInt 5)]) Demo.s0
             [("temperature", Demo.llm)] [] "top_p" Demo.llm (VInt 5)).
    + reflexivity.
    + apply not_elem_of_nil.
    + reflexivity.
  - reflexivity.
Defined.

Section alternatives_more.
Context {Input Output Kwargs : Type} {ops : RunnableOps Input Output Kwargs}.

(** X5: the default that [config_specs] lists for the selector is not a
    value [_prepare] accepts: unless an alternative is registered under
    ["default"], resolving the configuration that sets the selector to its
    listed default raises the unknown-alternative error. *)
Theorem alternatives_default_rejected (self : Alts.t) (s : positive) :
  dict_get (Alts.alternatives self) "default" = None →
  ∃ sel rest,
    Alts.config_specs self = sel :: rest
    ∧ Alts._prepare self (Some (defaults_config [sel])) s
      = Raise (ValueError "Unknown alternative: default").
Proof.
  intros Hnone. eexists _, _. split; [reflexivity|].
  rewrite alts_prepare_unfold. unfold Alts.selected, get_configurable. simpl.
  rewrite bool_decide_eq_true_2 by done. simpl. by rewrite Hnone.
Qed.
End alternatives_more.

Lemma alternatives_default_rejected_witness :
  ∃ sel rest,
    Alts.config_specs Demo.selector = sel :: rest
    ∧ Alts._prepare Demo.selector (Some (defaults_config [sel])) Demo.s0
      = Raise (ValueError "Unknown alternative: default").
Proof.
  apply (alternatives_default_rejected Demo.selector Demo.s0). reflexivity.
Defined.

(** ** The delegating entry points *)

Section entry_points.
Context {Input Output Kwargs InStream OutStream : Type}
  {ops : RunnableOps Input Output Kwargs}
  {aops : RunnableAsyncOps Input Output Kwargs}
  {sops : RunnableStreamOps Input Kwargs InStream OutStream}.

(** X6: on a [RunnableConfigurableAlternatives] whose selector entry is a
    registered key, [invoke], [ainvoke], [stream] and [transform] are the
    registered alternative's own, on the same input and on the configuration
    as given, the selector entry included; nothing is built. *)
Theorem alternatives_entry_points_selected
    (self : Alts.t) (config : option RunnableConfig) (k : string)
    (alt : Runnable) (x : Input) (xs : InStream) (kw : Kwargs) (s : positive) :
  selector_entry self config = Some (VStr k) → k ≠ "" →
  dict_get (Alts.alternatives self) k = Some alt →
  invoke self x config kw s = liftR (run_invoke alt x config kw) s
  ∧ ainvoke self x config kw s = liftR (run_ainvoke alt x config kw) s
  ∧ stream self x config kw s
    = liftR (unit_stream (cls alt) (attrs alt) x config kw) s
  ∧ transform self xs config kw s
    = liftR (unit_transform (cls alt) (attrs alt) xs config kw) s.
Proof.
  intros Hsel Hk Halt.
  assert (Hp : Alts._prepare self config s = Ok (alt, s)).
  { rewrite alts_prepare_unfold. unfold Alts.selected.
    fold (selector_entry self config). rewrite Hsel. simpl.
    rewrite bool_decide_eq_false_2 by done. simpl. by rewrite Halt. }
  unfold invoke, ainvoke, stream, transform, mbind, M_bind. simpl.
  by rewrite Hp.
Qed.

(** X7: on a [RunnableConfigurableAlternatives] whose selector entry is
    truthy and no registered key, [invoke], [ainvoke], [stream] and
    [transform] all raise the unknown-alternative error, whatever the units
    would do. *)
Theorem alternatives_entry_points_unknown
    (self : Alts.t) (config : option RunnableConfig) (v : PyVal)
    (x : Input) (xs : InStream) (kw : Kwargs) (s : positive) :
  selector_entry self config = Some v → truthy v = true →
  Alts.alternative self v = None →
  let e := ValueError ("Unknown alternative: " +:+ py_str v) in
  invoke self x config kw s = Raise e
  ∧ ainvoke self x config kw s = Raise e
  ∧ stream self x config kw s = Raise e
  ∧ transform self xs config kw s = Raise e.
Proof.
  intros Hsel Hv Halt e.
  assert (Hp : Alts._prepare self config s = Raise e).
  { rewrite alts_prepare_unfold. unfold Alts.selected.
    fold (selector_entry self config). rewrite Hsel. simpl.
    rewrite Hv. simpl. by rewrite Halt. }
  unfold invoke, ainvoke, stream, transform, mbind, M_bind. simpl.
  by rewrite Hp.
Qed.

(** X8: on a [RunnableConfigurableFields] whose configuration has no key
    that is the id of a declared field spec, [invoke], [ainvoke], [stream]
    and [transform] are the bound unit's own; nothing is built. *)
Theorem fields_entry_points_identity
    (self : Fields.t) (config : option RunnableConfig)
    (x : Input) (xs : InStream) (kw : Kwargs) (s : positive) :
  (∀ k f spec,
     k ∈ dict_keys (get_configurable (config_or_empty config)) →
     (f, spec) ∈ Fields.fields self → cf_id spec ≠ k) →
  invoke self x config kw s
  = liftR (run_invoke (Fields.bound self) x config kw) s
  ∧ ainvoke self x config kw s
    = liftR (run_ainvoke (Fields.bound self) x config kw) s
  ∧ stream self x config kw s
    = liftR (unit_stream (cls (Fields.bound self)) (attrs (Fields.bound self))
               x config kw) s
  ∧ transform self xs config kw s
    = liftR (unit_transform (cls (Fields.bound self))
               (attrs (Fields.bound self)) xs config kw) s.
Proof.
  intros Hno.
  assert (Hp : Fields._prepare self config s = Ok (Fields.bound self, s)).
  { unfold Fields._prepare. rewrite overrides_empty;
      [by rewrite bool_decide_eq_true_2|].
    intros k Hk.
    destruct (Fields.specs_by_id (Fields.fields self) !! k)
      as [[f spec]|] eqn:Hby; [|done].
    apply specs_by_id_lookup in Hby as [Hin Hid].
    by destruct (Hno k f spec). }
  unfold invoke, ainvoke, stream, transform, mbind, M_bind. simpl.
  by rewrite Hp.
Qed.
End entry_points.

Lemma alternatives_entry_points_selected_witness :
  invoke Demo.selector 1 (Some (Demo.cfg [("llm", VStr "fast")])) tt Demo.s0
  = Ok (("A", 1), Demo.s0)
  ∧ ainvoke Demo.selector 1 (Some (Demo.cfg [("llm", VStr "fast")])) tt Demo.s0
    = Ok (("A", 1), Demo.s0)
  ∧ stream Demo.selector 1 (Some (Demo.cfg [("llm", VStr "fast")])) tt Demo.s0
    = Ok ([("A", 1)], Demo.s0)
  ∧ transform Demo.selector [1; 2] (Some (Demo.cfg [("llm", VStr "fast")])) tt
      Demo.s0
    = Ok ([("A", 1); ("A", 2)], Demo.s0).
Proof.
  destruct (alternatives_entry_points_selected Demo.selector
              (Some (Demo.cfg [("llm", VStr "fast")])) "fast" Demo.A
              1 [1; 2] tt Demo.s0 eq_refl ltac:(discriminate) eq_refl)
    as (H1 & H2 & H3 & H4).
  rewrite H1, H2, H3, H4. repeat split.
Defined.

Lemma alternatives_entry_points_unknown_witness :
  invoke Demo.selector 1 (Some (Demo.cfg [("llm", VInt 7)])) tt Demo.s0
  = Raise (ValueError "Unknown alternative: 7")
  ∧ stream Demo.selector 1 (Some (Demo.cfg [("llm", VInt 7)])) tt Demo.s0
    = Raise (ValueError "Unknown alternative: 7").
Proof.
  destruct (alternatives_entry_points_unknown (aops:=DemoMore.aops)
              Demo.selector (Some (Demo.cfg [("llm", VInt 7)])) (VInt 7)
              1 [1; 2] tt Demo.s0 eq_refl eq_refl eq_refl)
    as (H1 & _ & H3 & _).
  rewrite H1, H3. by split.
Defined.

Lemma fields_entry_points_identity_witness :
  invoke Demo.overrider 1 (Some (Demo.cfg [("llm", VStr "fast")])) tt Demo.s0
  = Ok (("C", 1), Demo.s0)
  ∧ transform Demo.overrider [1; 2] (Some (Demo.cfg [("llm", VStr "fast")])) tt
      Demo.s0
    = Ok ([("C", 1); ("C", 2)], Demo.s0).
Proof.
  destruct (fields_entry_points_identity (aops:=DemoMore.aops)
              Demo.overrider (Some (Demo.cfg [("llm", VStr "fast")]))
              1 [1; 2] tt Demo.s0)
    as (H1 & _ & _ & H4).
  - intros k f spec Hk Hin.
    apply list_elem_of_singleton in Hk. apply list_elem_of_singleton in Hin.
    injection Hin as -> ->. by subst k.
  - rewrite H1, H4. by split.
Defined.

(** ** [batch] on a [RunnableConfigurableFields] *)

Section fields_batch.
Context {Input Output Kwargs : Type} {ops : RunnableOps Input Output Kwargs}.

Lemma fields_prepare_replicate (self : Fields.t) (c : RunnableConfig) a n s :
  Fields.overrides (Fields.specs_by_id (Fields.fields self))
    (get_configurable c) ≠ ∅ →
  unit_new (cls (Fields.bound self))
    (Fields.overrides (Fields.specs_by_id (Fields.fields self))
       (get_configurable c) ∪ attrs (Fields.bound self)) = Ok a →
  mapM (λ c, Fields._prepare self (Some c)) (replicate n c) s
  = Ok ((λ i, {| uid := Pos.of_nat (Pos.to_nat s + i);
                 cls := cls (Fields.bound self); attrs := a |}) <$> seq 0 n,
        Pos.of_nat (Pos.to_nat s + n)).
Proof.
  intros Hov Hnew. revert s. induction n as [|n IH]; intros s.
  - simpl. by rewrite Nat.add_0_r, Pos2Nat.id.
  - simpl replicate. rewrite mapM_M_cons.
    unfold Fields._prepare at 1. change (config_or_empty (Some c)) with c.
    cbv zeta. rewrite bool_decide_eq_false_2 by done. rewrite Hnew, IH.
    rewrite Pos2Nat.inj_succ. change (seq 0 (S n)) with (0 :: seq 1 n).
    rewrite fmap_cons, <-fmap_S_seq, <-list_fmap_compose.
    rewrite Nat.add_0_r, Pos2Nat.id.
    f_equal. f_equal; [|f_equal; lia].
    f_equal. apply list_fmap_ext. intros i j _. simpl.
    f_equal. f_equal. lia.
Qed.

(** X9: [batch] with [return_exceptions] on a [RunnableConfigurableFields],
    with one configuration for all inputs in which some key is the id of a
    declared field spec: the constructor accepting the overrides, a new unit
    is built for every input (as many identities are drawn as there are
    inputs), every item runs on a unit of the bound unit's class with the
    rebuilt attribute set, and position [i] holds the value or the exception
    of input [i]. *)
Theorem fields_batch_broadcast
    (self : Fields.t) (inputs : list Input) (c : RunnableConfig)
    (kwargs : Kwargs) (s : positive) (a : gmap string PyVal) :
  (uid (Fields.bound self) < s)%positive → inputs ≠ [] →
  (∃ k f spec, k ∈ dict_keys (get_configurable c)
               ∧ (f, spec) ∈ Fields.fields self ∧ cf_id spec = k) →
  unit_new (cls (Fields.bound self))
    (Fields.overrides (Fields.specs_by_id (Fields.fields self))
       (get_configurable c) ∪ attrs (Fields.bound self)) = Ok a →
  ∃ l, batch self inputs (COne c) true kwargs s
       = Ok (l, Pos.of_nat (Pos.to_nat s + length inputs))
       ∧ length l = length inputs
       ∧ ∀ i x, inputs !! i = Some x →
           l !! i = Some (captured (unit_invoke (cls (Fields.bound self)) a
                                      x (Some c) kwargs)).
Proof.
  intros Hfresh Hne (k & f & spec & Hk & Hin & Hid) Hnew.
  pose proof (overrides_nonempty _ _ _ _ _ Hk Hin Hid) as Hov.
  pose proof (fields_prepare_replicate self c a (length inputs) s Hov Hnew)
    as Hprep.
  set (prepared := (λ i, {| uid := Pos.of_nat (Pos.to_nat s + i);
                           cls := cls (Fields.bound self); attrs := a |})
                     <$> seq 0 (length inputs)) in *.
  rewrite (batch_resolved (dyn:=RunnableConfigurableFields_dynamic)
             self inputs (COne c) true kwargs s
             (replicate (length inputs) c) prepared _ eq_refl Hprep).
  assert (Hplen : length prepared = length inputs).
  { unfold prepared. by rewrite length_fmap, length_seq. }
  replace (forallb _ prepared) with false; cycle 1.
  { destruct inputs as [|x0 inputs']; [done|]. unfold prepared. simpl.
    unfold is_ at 1. simpl. rewrite bool_decide_eq_false_2; [done|].
    rewrite Nat.add_0_r, Pos2Nat.id. lia. }
  destruct inputs as [|x0 inputs']; [done|]. cbv iota.
  set (inputs := x0 :: inputs') in *. clearbody inputs. clear Hne.
  assert (Hclen : length inputs = length (replicate (length inputs) c))
    by by rewrite length_replicate.
  destruct (executor_map_total
              (batch_invoke (Output:=Output) true kwargs)
              prepared inputs (replicate (length inputs) c) Hplen Hclen)
    as [l Hl].
  { intros i p x c' _ _ _. rewrite batch_invoke_captured. by eexists. }
  exists l. rewrite Hl. split; [done|].
  destruct (executor_map_ok _ _ _ _ _ Hplen Hclen Hl) as [Hll Hlook].
  split; [done|]. intros i x Hx.
  assert (Hi : i < length inputs) by by eapply lookup_lt_Some.
  destruct (Hlook i {| uid := Pos.of_nat (Pos.to_nat s + i);
                       cls := cls (Fields.bound self); attrs := a |} x c)
    as (r & Hr & ->); try done.
  - unfold prepared. rewrite list_lookup_fmap, lookup_seq_lt by done. done.
  - by apply lookup_replicate_2.
  - rewrite batch_invoke_captured in Hr. by injection Hr as <-.
Qed.
End fields_batch.

Lemma fields_batch_broadcast_witness :
  ∃ l, batch Demo.overrider [1; 2] (COne (Demo.cfg [("temperature", VInt 9)]))
         true tt Demo.s0
       = Ok (l, 12%positive)
       ∧ length l = 2
       ∧ l !! 1 = Some (inl ("C", 2)).
Proof.
  destruct (fields_batch_broadcast Demo.overrider [1; 2]
              (Demo.cfg [("temperature", VInt 9)]) tt Demo.s0
              (<[ "temperature" := VInt 9 ]> (attrs Demo.C)))
    as (l & Hb & Hlen & Hl).
  - reflexivity.
  - discriminate.
  - exists "temperature", "temperature",
      {| cf_id := "temperature"; cf_name := None; cf_description := None;
         cf_annotation := None |}.
    split; [apply list_elem_of_singleton; reflexivity|].
    split; [apply list_elem_of_singleton; reflexivity|reflexivity].
  - vm_compute. reflexivity.
  - exists l. split; [exact Hb|]. split; [exact Hlen|].
    exact (Hl 1 2 eq_refl).
Defined.

(** ** [abatch] *)

Section map3_facts.
Context {A B C R : Type} (f : A → B → C → R).

Lemma map3_lookup la lb lc :
  length la = length lb → length lb = length lc →
  length (map3 f la lb lc) = length lb
  ∧ ∀ i a b c, la !! i = Some a → lb !! i = Some b → lc !! i = Some c →
               map3 f la lb lc !! i = Some (f a b c).
Proof.
  revert lb lc.
  induction la as [|a la IH]; intros [|b lb] [|c lc]; simpl; try done.
  intros [= Hab] [= Hbc]. destruct (IH lb lc Hab Hbc) as [Hlen Hlook].
  split; [by rewrite Hlen|].
  intros [|i] a' b' c'; simpl.
  - by intros [= <-] [= <-] [= <-].
  - apply Hlook.
Qed.
End map3_facts.

Section abatch.
Context {Input Output Kwargs : Type}
  {aops : RunnableAsyncOps Input Output Kwargs}.
Context {Self : Type} {dyn : DynamicRunnable Self}.

(** [abatch] once the configurations are broadcast and resolved. *)
Lemma abatch_resolved (self : Self) inputs config re kw s configs prepared s' :
  get_config_list config (length inputs) = Ok configs →
  mapM (λ c, _prepare self (Some c)) configs s = Ok (prepared, s') →
  abatch self inputs config re kw s
  = if forallb (λ p, is_ p (bound self)) prepared then
      liftR (unit_abatch (cls (bound self)) (attrs (bound self))
               inputs config re kw) s'
    else match inputs, configs with
         | [], _ => Ok ([], s')
         | _, c0 :: _ =>
             liftR (gather_with_concurrency (max_concurrency c0)
                      (map3 (abatch_ainvoke re kw) prepared inputs configs)) s'
         | _, [] => Raise (IndexError "list index out of range")
         end.
Proof.
  intros Hcfg Hprep. unfold abatch. unfold mbind at 1, M_bind at 1.
  rewrite Hcfg. simpl liftR at 1. cbv beta iota.
  unfold mbind at 1, M_bind at 1. rewrite Hprep.
  destruct (forallb _ prepared); [done|].
  destruct inputs as [|x inputs]; [done|].
  unfold mbind at 1, M_bind at 1. simpl liftR at 1. cbv beta iota zeta.
  by destruct configs.
Qed.

(** X10: when every unit resolved for the broadcast configurations is the
    bound unit itself (as is the case for an empty input list), [abatch] is
    the bound unit's own [abatch] on the inputs, the configuration argument
    as given, and the [return_exceptions] flag. *)
Theorem abatch_fast_path (self : Self) (inputs : list Input)
    (config : ConfigArg) (return_exceptions : bool) (kwargs : Kwargs)
    (s : positive) configs prepared s' :
  get_config_list config (length inputs) = Ok configs →
  mapM (λ c, _prepare self (Some c)) configs s = Ok (prepared, s') →
  inputs = [] ∨ Forall (λ p, uid p = uid (bound self)) prepared →
  abatch self inputs config return_exceptions kwargs s
  = liftR (unit_abatch (cls (bound self)) (attrs (bound self))
             inputs config return_exceptions kwargs) s'.
Proof.
  intros Hcfg Hprep Hall.
  rewrite (abatch_resolved _ _ _ _ _ _ _ _ _ Hcfg Hprep).
  replace (forallb _ prepared) with true; [done|].
  symmetry. apply is_bound_all. destruct Hall as [-> | Hall]; [|done].
  apply get_config_list_length in Hcfg.
  apply mapM_M_lookup in Hprep as [Hlen _].
  destruct prepared; [constructor|]. simpl in *. congruence.
Qed.

(** X11: a configuration whose resolution raises makes [abatch] raise that
    exception, with or without [return_exceptions]: the units are resolved
    before any coroutine is made. *)
Theorem abatch_resolution_failure (self : Self) (inputs : list Input)
    (config : ConfigArg) (return_exceptions : bool) (kwargs : Kwargs)
    (s : positive) (before after : list RunnableConfig) c prepared s1 e :
  get_config_list config (length inputs) = Ok (before ++ c :: after)%list →
  mapM (λ c, _prepare self (Some c)) before s = Ok (prepared, s1) →
  _prepare self (Some c) s1 = Raise e →
  abatch self inputs config return_exceptions kwargs s = Raise e.
Proof.
  intros Hcfg Hprep He. unfold abatch. unfold mbind at 1, M_bind at 1.
  rewrite Hcfg. simpl liftR at 1. cbv beta iota.
  unfold mbind at 1, M_bind at 1.
  by rewrite (mapM_M_raise _ _ _ _ _ _ _ _ Hprep He).
Qed.

Lemma ainvoke_resolved `{!PurePrepare Self} (self : Self) x c kw p si si' s0 :
  _prepare self (Some c) si = Ok (p, si') →
  outcome (ainvoke self x (Some c) kw s0) = run_ainvoke p x (Some c) kw.
Proof.
  intros Hp. pose proof (prepare_pure self (Some c) s0 si) as Hpure.
  rewrite Hp in Hpure. unfold ainvoke, mbind, M_bind.
  destruct (_prepare self (Some c) s0) as [[p' s0']|e]; [|done].
  simpl in Hpure. injection Hpure as Hcls Hattrs.
  unfold run_ainvoke. rewrite Hcls, Hattrs. unfold liftR, outcome.
  by destruct (unit_ainvoke _ _ _ _ _).
Qed.

(** X12: on the fallback path of [abatch] (some resolved unit is not the
    bound unit itself), the result is that of [gather_with_concurrency] on
    the concurrency limit of the first configuration, whatever the other
    configurations say, and on one coroutine per input, in input order;
    coroutine [i] gives what [ainvoke] gives on input [i] under
    configuration [i], and with [return_exceptions] it never raises: it
    returns the value or the exception caught. *)
Theorem abatch_fallback `{!PurePrepare Self} (self : Self)
    (inputs : list Input) (config : ConfigArg) (return_exceptions : bool)
    (kwargs : Kwargs) (s : positive) configs prepared s' :
  get_config_list config (length inputs) = Ok configs →
  mapM (λ c, _prepare self (Some c)) configs s = Ok (prepared, s') →
  Exists (λ p, uid p ≠ uid (bound self)) prepared →
  ∃ c0 coros,
    configs !! 0 = Some c0
    ∧ abatch self inputs config return_exceptions kwargs s
      = liftR (gather_with_concurrency (max_concurrency c0) coros) s'
    ∧ length coros = length inputs
    ∧ ∀ i x c s0, inputs !! i = Some x → configs !! i = Some c →
        coros !! i
        = Some (if return_exceptions
                then Ok (captured (outcome (ainvoke self x (Some c) kwargs s0)))
                else result_map inl
                       (outcome (ainvoke self x (Some c) kwargs s0))).
Proof.
  intros Hcfg Hprep Hex.
  rewrite (abatch_resolved _ _ _ _ _ _ _ _ _ Hcfg Hprep).
  replace (forallb _ prepared) with false; cycle 1.
  { symmetry. apply not_true_is_false. rewrite is_bound_all.
    by apply Exists_not_Forall. }
  apply get_config_list_length in Hcfg as Hlen.
  apply mapM_M_lookup in Hprep as [Hplen Hplook].
  assert (Hlens : length prepared = length inputs) by congruence.
  assert (Hlenc : length inputs = length configs) by congruence.
  destruct configs as [|c0 configs'].
  { destruct prepared; [|done]. by apply Exists_nil in Hex. }
  destruct inputs as [|x0 inputs']; [done|].
  set (inputs := x0 :: inputs') in *. set (configs := c0 :: configs') in *.
  exists c0, (map3 (abatch_ainvoke return_exceptions kwargs)
                prepared inputs configs).
  split; [done|]. split; [done|].
  destruct (map3_lookup (abatch_ainvoke (Output:=Output)
                           return_exceptions kwargs)
              prepared inputs configs Hlens Hlenc) as [Hl Hlook].
  split; [done|]. intros i x c s0 Hx Hc.
  destruct (Hplook i c Hc) as (p & si & si' & Hp & Hres).
  rewrite (Hlook i p x c Hp Hx Hc). f_equal.
  rewrite (ainvoke_resolved self x c kwargs p si si' s0 Hres).
  unfold abatch_ainvoke. destruct return_exceptions; [|done].
  by destruct (run_ainvoke _ _ _ _).
Qed.
End abatch.

Lemma abatch_fast_path_witness :
  abatch Demo.selector [1; 2] CNone false tt Demo.s0
  = Ok ([inl ("C", 1); inl ("C", 2)], Demo.s0).
Proof.
  etrans.
  - apply (abatch_fast_path Demo.selector [1; 2] CNone false tt Demo.s0
             [empty_config; empty_config] [Demo.C; Demo.C] Demo.s0);
      [reflexivity|reflexivity|].
    right. repeat constructor.
  - reflexivity.
Defined.

Lemma abatch_resolution_failure_witness :
  abatch Demo.selector [1; 2]
    (CList [Demo.cfg [("llm", VStr "fast")]; Demo.cfg [("llm", VStr "bogus")]])
    true tt Demo.s0
  = Raise (ValueError "Unknown alternative: bogus").
Proof.
  etrans.
  - apply (abatch_resolution_failure Demo.selector [1; 2] _ true tt Demo.s0
             [Demo.cfg [("llm", VStr "fast")]] []
             (Demo.cfg [("llm", VStr "bogus")]) [Demo.A] Demo.s0);
      reflexivity.
  - reflexivity.
Defined.

Lemma abatch_fallback_witness :
  ∃ c0 coros,
    max_concurrency c0 = Some 4%Z
    ∧ abatch Demo.selector [1; 2]
        (CList [{| configurable := Some [("llm", VStr "fast")];
                   max_concurrency := Some 4%Z |};
                {| configurable := Some [("llm", VStr "slow")];
                   max_concurrency := Some 1%Z |}])
        true tt Demo.s0
      = liftR (gather_with_concurrency (max_concurrency c0) coros) Demo.s0
    ∧ coros !! 1 = Some (Ok (inr (UnitError "B"))).
Proof.
  destruct (abatch_fallback Demo.selector [1; 2]
              (CList [{| configurable := Some [("llm", VStr "fast")];
                         max_concurrency := Some 4%Z |};
                      {| configurable := Some [("llm", VStr "slow")];
                         max_concurrency := Some 1%Z |}])
              true tt Demo.s0
              [{| configurable := Some [("llm", VStr "fast")];
                  max_concurrency := Some 4%Z |};
               {| configurable := Some [("llm", VStr "slow")];
                  max_concurrency := Some 1%Z |}]
              [Demo.A; Demo.B] Demo.s0)
    as (c0 & coros & Hc0 & Hab & _ & Hco).
  - reflexivity.
  - reflexivity.
  - left. simpl. discriminate.
  - exists c0, coros. injection Hc0 as <-.
    split; [reflexivity|]. split; [exact Hab|].
    exact (Hco 1 2 _ Demo.s0 eq_refl eq_refl).
Defined.

(** ** [config_specs] of [RunnableConfigurableFields] *)

Section fields_specs.
Context {fops : RunnableFieldOps}.

Lemma config_spec_ok (self : Fields.t) item sp :
  FieldsMethods.config_spec self item = Ok sp → spec_of_field self item sp.
Proof.
  destruct item as [f [id name descr ann]].
  unfold FieldsMethods.config_spec, FieldsMethods.bound_field,
    FieldsMethods.bound_getattr, FieldsMethods.str_or, spec_of_field. simpl.
  destruct (attrs (Fields.bound self) !! f) as [v|] eqn:Hv; cycle 1.
  { destruct descr as [d|]; [case_bool_decide|];
      destruct (unit_field_info _ f) as [info|]; simpl;
      destruct ann; simpl; done. }
  destruct descr as [d|]; [case_bool_decide as Hd|];
    destruct (unit_field_info _ f) as [info|] eqn:Hinfo; simpl;
    destruct ann as [a|]; simpl; try done;
    intros [= <-]; simpl; repeat split; try done;
    try (by intros ? [= <-]); try (by intros ? [= <-] ?);
    try (by intros [|[= ->]]); try (by intros _; eexists);
    try (by intros [|]).
Qed.

Lemma config_specs_of_ok (self : Fields.t) items specs :
  FieldsMethods.config_specs_of self items = Ok specs →
  Forall2 (spec_of_field self) items specs.
Proof.
  revert specs. induction items as [|item items IH]; intros specs; simpl.
  - intros [= <-]. constructor.
  - destruct (FieldsMethods.config_spec self item) as [sp|e] eqn:Hsp; [|done].
    simpl.
    destruct (FieldsMethods.config_specs_of self items) as [sps|e]; [|done].
    intros [= <-]. constructor; [by apply config_spec_ok|by apply IH].
Qed.

Lemma config_spec_total (self : Fields.t) item :
  is_Some (attrs (Fields.bound self) !! item.1) →
  is_Some (unit_field_info (cls (Fields.bound self)) item.1) →
  ∃ sp, FieldsMethods.config_spec self item = Ok sp.
Proof.
  intros [v Hv] [info Hinfo].
  unfold FieldsMethods.config_spec, FieldsMethods.bound_field,
    FieldsMethods.bound_getattr, FieldsMethods.str_or.
  rewrite Hv, Hinfo. simpl.
  destruct (cf_description item.2) as [d|]; [case_bool_decide|];
    destruct (cf_annotation item.2); simpl; by eexists.
Qed.

(** X13: when the bound unit has every declared field (the attribute and
    the class's field entry), [config_specs] lists one spec per declared
    field, in declaration order: its id and name are the declared ones, its
    default is the bound unit's current value of the field, its description
    is the declared one when that is a non-empty string and the class's
    otherwise, its annotation the declared one when given and the class's
    otherwise. *)
Theorem fields_config_specs (self : Fields.t) :
  (∀ f spec, (f, spec) ∈ Fields.fields self →
     is_Some (attrs (Fields.bound self) !! f)
     ∧ is_Some (unit_field_info (cls (Fields.bound self)) f)) →
  ∃ specs,
    FieldsMethods.config_specs self = Ok specs
    ∧ length specs = length (Fields.fields self)
    ∧ ∀ i item, Fields.fields self !! i = Some item →
        ∃ sp, specs !! i = Some sp ∧ spec_of_field self item sp.
Proof.
  intros Hall. unfold FieldsMethods.config_specs.
  assert (∃ specs, FieldsMethods.config_specs_of self (Fields.fields self)
                   = Ok specs) as [specs Hspecs].
  { induction (Fields.fields self) as [|[f spec] items IH]; simpl.
    - by eexists.
    - destruct (Hall f spec) as [Ha Hi]; [left|].
      destruct (config_spec_total self (f, spec) Ha Hi) as [sp ->].
      destruct IH as [sps ->]; [|by eexists].
      intros f' spec' Hin. apply (Hall f' spec'). by right. }
  exists specs. split; [done|].
  apply config_specs_of_ok in Hspecs.
  split; [symmetry; by eapply Forall2_length|].
  intros i item Hi.
  destruct (Forall2_lookup_l _ _ _ _ _ Hspecs Hi) as (sp & Hsp & Hrel).
  by exists sp.
Qed.

(** X14: when the bound unit lacks the attribute of some declared field,
    [config_specs] raises: it returns no list that leaves the field out. *)
Theorem fields_config_specs_missing (self : Fields.t) f spec :
  (f, spec) ∈ Fields.fields self →
  attrs (Fields.bound self) !! f = None →
  ∃ e, FieldsMethods.config_specs self = Raise e.
Proof.
  intros Hin Hmiss. unfold FieldsMethods.config_specs.
  induction (Fields.fields self) as [|item items IH].
  - by apply elem_of_nil in Hin.
  - simpl.
    destruct (FieldsMethods.config_spec self item) as [sp|e] eqn:Hsp;
      [|by eexists].
    apply elem_of_cons in Hin as [<-|Hin].
    + apply config_spec_ok in Hsp as (_ & _ & Hattr & _). simpl in Hattr.
      congruence.
    + simpl. destruct (IH Hin) as [e ->]. by eexists.
Qed.
End fields_specs.

Section fields_defaults.
Context {Input Output Kwargs : Type} {ops : RunnableOps Input Output Kwargs}
  {fops : RunnableFieldOps}.

(** X15: configuring every field to the default that [config_specs] lists
    for it changes no value: with pairwise distinct spec ids and at least
    one declared field, [_prepare] on that configuration calls the
    constructor on exactly the bound unit's attribute set (and returns the
    new unit, not the bound one). *)
Theorem fields_defaults_round_trip
    (self : Fields.t) (specs : list ConfigurableFieldSpec) (s : positive) :
  dict_wf (Fields.fields self) →
  NoDup (cf_id <$> dict_values (Fields.fields self)) →
  Fields.fields self ≠ [] →
  FieldsMethods.config_specs self = Ok specs →
  Fields._prepare self (Some (defaults_config specs)) s
  = match unit_new (cls (Fields.bound self)) (attrs (Fields.bound self)) with
    | Ok a => Ok ({| uid := s; cls := cls (Fields.bound self); attrs := a |},
                  Pos.succ s)
    | Raise e => Raise e
    end.
Proof.
  intros Hwf Hids Hne Hspecs.
  apply config_specs_of_ok in Hspecs.
  set (items := (λ sp, (cfs_id sp, cfs_default sp)) <$> specs).
  assert (Hitem : ∀ k v, (k, v) ∈ items →
            ∃ f spec, (f, spec) ∈ Fields.fields self ∧ cf_id spec = k
                      ∧ attrs (Fields.bound self) !! f = Some v).
  { intros k v (sp & [= -> ->] & Hsp)%list_elem_of_fmap.
    apply list_elem_of_lookup in Hsp as [i Hi].
    destruct (Forall2_lookup_r _ _ _ _ _ Hspecs Hi)
      as ([f spec] & Hf & Hid & _ & Hattr & _).
    exists f, spec. split; [by eapply list_elem_of_lookup_2|]. by split. }
  assert (Hsub : ∀ f v,
            Fields.overrides (Fields.specs_by_id (Fields.fields self)) items
              !! f = Some v →
            attrs (Fields.bound self) !! f = Some v).
  { intros f v Hov. unfold Fields.overrides in Hov.
    apply overrides_acc_lookup_inv in Hov as [Hm|(k & spec & Hk & Hin)];
      [by rewrite lookup_empty in Hm|].
    destruct (Hitem k v Hin) as (f' & spec' & Hin' & <- & Hattr).
    rewrite (specs_by_id_unique _ f' spec' Hids Hin') in Hk. by simplify_eq. }
  unfold Fields._prepare, defaults_config, get_configurable. simpl.
  fold items.
  replace (Fields.overrides (Fields.specs_by_id (Fields.fields self)) items
           ∪ attrs (Fields.bound self)) with (attrs (Fields.bound self)).
  2:{ apply map_eq. intros f. symmetry.
      destruct (Fields.overrides (Fields.specs_by_id (Fields.fields self))
                  items !! f) as [v|] eqn:Hov.
      - rewrite (lookup_union_Some_l _ _ _ _ Hov). symmetry. by apply Hsub.
      - by rewrite lookup_union_r. }
  rewrite bool_decide_eq_false_2; [done|].
  destruct (Fields.fields self) as [|[f0 spec0] rest] eqn:Hfields; [done|].
  inversion Hspecs as [|? sp0 ? sps (Hid0 & _) _]; subst.
  rewrite <-Hfields. apply (overrides_nonempty _ _ (cf_id spec0) f0 spec0).
  - unfold dict_keys, items. rewrite !fmap_cons. simpl. rewrite Hid0. left.
  - rewrite Hfields. left.
  - done.
Qed.
End fields_defaults.

(** ** [configurable_fields] *)

Lemma dict_get_set {V} (d : pydict V) k v k' :
  dict_get (dict_set d k v) k'
  = if bool_decide (k = k') then Some v else dict_get d k'.
Proof.
  induction d as [|[k0 v0] d IH]; simpl.
  - done.
  - destruct (decide (k0 = k)) as [->|Hne].
    + rewrite bool_decide_eq_true_2 by done. simpl.
      by case_bool_decide.
    + rewrite (bool_decide_eq_false_2 (k0 = k)) by done. simpl. rewrite IH.
      repeat case_bool_decide; congruence.
Qed.

Lemma dict_keys_set {V} (d : pydict V) k v :
  dict_keys (dict_set d k v)
  = if bool_decide (k ∈ dict_keys d) then dict_keys d
    else (dict_keys d ++ [k])%list.
Proof.
  unfold dict_keys. induction d as [|[k0 v0] d IH].
  - done.
  - cbn [dict_set]. rewrite (fmap_cons fst (k0, v0)). cbn [fst].
    destruct (decide (k0 = k)) as [->|Hne].
    + rewrite bool_decide_eq_true_2 by done. rewrite fmap_cons. cbn [fst].
      rewrite bool_decide_eq_true_2; [done|left].
    + rewrite (bool_decide_eq_false_2 (k0 = k)) by done.
      rewrite fmap_cons. cbn [fst]. rewrite IH.
      destruct (decide (k ∈ d.*1)) as [Hin|Hnin].
      * rewrite !bool_decide_eq_true_2; [done|by right|done].
      * rewrite !bool_decide_eq_false_2; [done| |done].
        rewrite not_elem_of_cons. by split.
Qed.

Lemma filter_ext_elem {A} (P1 P2 : A → Prop)
    `{!∀ x, Decision (P1 x), !∀ x, Decision (P2 x)} (l : list A) :
  (∀ x, x ∈ l → P1 x ↔ P2 x) → filter P1 l = filter P2 l.
Proof.
  induction l as [|x l IH]; intros Hext; [done|].
  rewrite !filter_cons, IH by (intros y Hy; apply Hext; by right).
  destruct (decide (P1 x)) as [H1|H1], (decide (P2 x)) as [H2|H2]; try done.
  - destruct H2. by apply (Hext x); [left|].
  - destruct H1. by apply (Hext x); [left|].
Qed.

Lemma dict_keys_update {V} (d kwargs : pydict V) :
  dict_wf kwargs →
  dict_keys (dict_update d kwargs)
  = (dict_keys d ++ filter (λ k, k ∉ dict_keys d) (dict_keys kwargs))%list.
Proof.
  unfold dict_wf, dict_update. revert d.
  induction kwargs as [|[k v] kwargs IH]; intros d.
  - intros _. simpl. by rewrite filter_nil, app_nil_r.
  - rewrite fmap_cons, NoDup_cons. intros [Hk Hnd]. simpl.
    rewrite IH by done. rewrite dict_keys_set, filter_cons. simpl in Hk.
    destruct (decide (k ∈ dict_keys d)) as [Hin|Hnin].
    + rewrite bool_decide_eq_true_2 by done.
      rewrite decide_False by (by intros ?). done.
    + rewrite bool_decide_eq_false_2 by done.
      rewrite decide_True by done. rewrite <-app_assoc. simpl.
      f_equal. f_equal. apply filter_ext_elem. intros k' Hk'.
      rewrite elem_of_app, list_elem_of_singleton.
      split; [tauto|]. intros Hno [?| ->]; [done|].
      by apply Hk.
Qed.

Lemma dict_get_update {V} (d kwargs : pydict V) k :
  dict_wf kwargs →
  dict_get (dict_update d kwargs) k
  = match dict_get kwargs k with
    | Some v => Some v
    | None => dict_get d k
    end.
Proof.
  unfold dict_wf, dict_update. revert d.
  induction kwargs as [|[k0 v0] kwargs IH]; intros d.
  - done.
  - rewrite fmap_cons, NoDup_cons. intros [Hk Hnd]. simpl.
    rewrite IH by done. rewrite dict_get_set.
    case_bool_decide as Heq; [|done]. subst k0.
    apply (dict_get_None_keys kwargs k) in Hk. by rewrite Hk.
Qed.

Section configurable_fields.
Context {fops : RunnableFieldOps}.

(** X16: [configurable_fields] of a [RunnableConfigurableFields] does not
    wrap the wrapper: it calls the bound unit's own [configurable_fields]
    on the merged declarations, in which a field named in the call has its
    new spec, every other declared field keeps its spec, the declared
    fields keep their order and the new ones follow in the order given. *)
Theorem fields_configurable_fields
    (self : Fields.t) (kwargs : pydict ConfigurableField) :
  dict_wf (Fields.fields self) → dict_wf kwargs →
  ∃ merged,
    FieldsMethods.configurable_fields self kwargs
    = unit_configurable_fields (Fields.bound self) merged
    ∧ dict_wf merged
    ∧ (∀ f, dict_get merged f
            = match dict_get kwargs f with
              | Some spec => Some spec
              | None => dict_get (Fields.fields self) f
              end)
    ∧ dict_keys merged
      = (dict_keys (Fields.fields self)
         ++ filter (λ f, f ∉ dict_keys (Fields.fields self)) (dict_keys kwargs))%list.
Proof.
  intros Hwf Hkw. exists (dict_update (Fields.fields self) kwargs).
  split; [done|]. split; [|split].
  - unfold dict_wf. fold (dict_keys (dict_update (Fields.fields self) kwargs)).
    rewrite dict_keys_update by done. apply NoDup_app. split; [done|].
    split.
    + intros f Hf [Hno _]%list_elem_of_filter. done.
    + by apply NoDup_filter.
  - intros f. by apply dict_get_update.
  - by apply dict_keys_update.
Qed.

(** X17: [configurable_fields] of a [RunnableConfigurableAlternatives]
    makes the fields configurable on the bound unit only: the selector and
    the alternatives are kept, the new bound unit is what the bound unit's
    own [configurable_fields] returns, and every truthy selector value
    resolves on the new selector as on the old one, to the same alternative
    or to the same error. *)
Theorem alternatives_configurable_fields
    (self self' : Alts.t) (kwargs : pydict ConfigurableField)
    (s s' : positive) :
  AltsMethods.configurable_fields self kwargs s = Ok (self', s') →
  Alts.which self' = Alts.which self
  ∧ Alts.alternatives self' = Alts.alternatives self
  ∧ unit_configurable_fields (Alts.bound self) kwargs s
    = Ok (Alts.bound self', s')
  ∧ ∀ config v st,
      selector_entry self config = Some v → truthy v = true →
      Alts._prepare self' config st = Alts._prepare self config st.
Proof.
  unfold AltsMethods.configurable_fields, mbind, M_bind.
  destruct (unit_configurable_fields (Alts.bound self) kwargs s)
    as [[b s1]|e]; [|done].
  intros [= <- <-]. simpl. repeat split.
  intros config v st Hsel Hv. rewrite !alts_prepare_unfold.
  unfold Alts.selected, Alts.alternative. simpl.
  fold (selector_entry self config). rewrite Hsel. simpl. by rewrite Hv.
Qed.
End configurable_fields.

(** ** [get_lc_namespace] *)

Lemma py_split_nonempty sep s : py_split sep s ≠ [].
Proof.
  destruct s as [|c s]; simpl; [done|].
  destruct (Ascii.eqb c sep); [done|]. by destruct (py_split sep s).
Qed.

Lemma py_split_concat sep s :
  String.concat (String sep EmptyString) (py_split sep s) = s.
Proof.
  induction s as [|c s IH]; simpl; [done|].
  pose proof (py_split_nonempty sep s) as Hne.
  destruct (Ascii.eqb_spec c sep) as [->|Hc].
  - destruct (py_split sep s) as [|w ws]; [done|].
    change (String.concat (String sep EmptyString) (EmptyString :: w :: ws))
      with (String sep (String.concat (String sep EmptyString) (w :: ws))).
    by rewrite IH.
  - destruct (py_split sep s) as [|w ws]; [done|].
    rewrite <-IH. by destruct ws.
Qed.

Lemma py_split_no_sep sep s :
  Forall (λ w, ¬ In sep (list_ascii_of_string w)) (py_split sep s).
Proof.
  induction s as [|c s IH]; simpl.
  - constructor; [|constructor]. by intros [].
  - destruct (Ascii.eqb_spec c sep) as [->|Hc].
    + constructor; [by intros []|done].
    + destruct (py_split sep s) as [|w ws].
      * constructor; [|constructor]. simpl. by intros [|[]].
      * apply Forall_cons in IH as [Hw Hws]. constructor; [|done].
        simpl. by intros [|].
Qed.

(** X18: [get_lc_namespace] returns the components of the module path
    before the last one: with the last component they are the dot-free
    strings whose joining by dots gives the module path back. *)
Theorem get_lc_namespace_components (module : string) :
  ∃ name,
    py_split "."%char module = (get_lc_namespace module ++ [name])%list
    ∧ String.concat "." (get_lc_namespace module ++ [name]) = module
    ∧ Forall (λ w, ¬ In "."%char (list_ascii_of_string w))
        (get_lc_namespace module ++ [name]).
Proof.
  unfold get_lc_namespace.
  destruct (exists_last (py_split_nonempty "."%char module)) as (ns & name & Hsplit).
  exists name. rewrite Hsplit, removelast_last.
  split; [done|]. rewrite <-Hsplit.
  split; [apply py_split_concat|apply py_split_no_sep].
Qed.

(** ** The rest of the module at concrete resolvers *)

Lemma fields_config_specs_witness :
  ∃ specs sp,
    FieldsMethods.config_specs DemoMore.overrider = Ok specs
    ∧ length specs = 2
    ∧ specs !! 0 = Some sp
    ∧ cfs_id sp = "llm_temperature"
    ∧ attrs Demo.C !! "temperature" = Some (cfs_default sp).
Proof.
  destruct (fields_config_specs DemoMore.overrider)
    as (specs & Hspecs & Hlen & Hl).
  - intros f spec Hin.
    apply elem_of_cons in Hin as [[= -> ->]|Hin];
      [|apply list_elem_of_singleton in Hin as [= -> ->]];
      split; vm_compute; by eexists.
  - destruct (Hl 0 _ eq_refl) as (sp & Hsp & Hid & _ & Hattr & _).
    exists specs, sp. repeat split; [exact Hspecs|exact Hlen|exact Hsp
                                    |exact Hid|exact Hattr].
Defined.

Lemma fields_config_specs_missing_witness :
  ∃ e, FieldsMethods.config_specs
         {| Fields.bound := Demo.C;
            Fields.fields := [("top_p", DemoMore.top_p); ("seed", Demo.llm)] |}
       = Raise e.
Proof.
  apply (fields_config_specs_missing
           {| Fields.bound := Demo.C;
              Fields.fields := [("top_p", DemoMore.top_p); ("seed", Demo.llm)] |}
           "seed" Demo.llm).
  - right. left.
  - vm_compute. reflexivity.
Defined.

Lemma fields_defaults_round_trip_witness :
  ∃ specs,
    FieldsMethods.config_specs DemoMore.overrider = Ok specs
    ∧ Fields._prepare DemoMore.overrider (Some (defaults_config specs)) Demo.s0
      = Ok ({| uid := Demo.s0; cls := "C"; attrs := attrs Demo.C |},
            Pos.succ Demo.s0).
Proof.
  eexists. split; [vm_compute; reflexivity|].
  etrans.
  - apply (fields_defaults_round_trip (ops:=Demo.ops) DemoMore.overrider).
    + apply (bool_decide_unpack _). vm_compute. exact I.
    + apply (bool_decide_unpack _). vm_compute. exact I.
    + discriminate.
    + vm_compute. reflexivity.
  - reflexivity.
Defined.

Lemma fields_configurable_fields_witness :
  ∃ merged,
    FieldsMethods.configurable_fields DemoMore.overrider
      [("seed", Demo.llm); ("temperature", DemoMore.top_p)]
    = unit_configurable_fields Demo.C merged
    ∧ dict_keys merged = ["temperature"; "top_p"; "seed"]
    ∧ dict_get merged "temperature" = Some DemoMore.top_p.
Proof.
  destruct (fields_configurable_fields DemoMore.overrider
              [("seed", Demo.llm); ("temperature", DemoMore.top_p)])
    as (merged & Hcall & _ & Hget & Hkeys).
  - apply (bool_decide_unpack _). vm_compute. exact I.
  - apply (bool_decide_unpack _). vm_compute. exact I.
  - exists merged. split; [exact Hcall|]. split.
    + rewrite Hkeys. vm_compute. reflexivity.
    + rewrite Hget. reflexivity.
Defined.

Lemma alternatives_configurable_fields_witness :
  Alts._prepare
    {| Alts.bound := {| uid := Demo.s0; cls := "RunnableConfigurableFields";
                        attrs := attrs Demo.C |};
       Alts.which := Demo.llm;
       Alts.alternatives := [("fast", Demo.A); ("slow", Demo.B)] |}
    (Some (Demo.cfg [("llm", VStr "slow")])) Demo.s0
  = Alts._prepare Demo.selector (Some (Demo.cfg [("llm", VStr "slow")])) Demo.s0.
Proof.
  destruct (alternatives_configurable_fields Demo.selector
              {| Alts.bound := {| uid := Demo.s0;
                                  cls := "RunnableConfigurableFields";
                                  attrs := attrs Demo.C |};
                 Alts.which := Demo.llm;
                 Alts.alternatives := [("fast", Demo.A); ("slow", Demo.B)] |}
              [("temperature", DemoMore.temperature)]
              Demo.s0 (Pos.succ Demo.s0))
    as (_ & _ & _ & Hsame).
  - reflexivity.
  - apply (Hsame (Some (Demo.cfg [("llm", VStr "slow")])) (VStr "slow") Demo.s0);
      reflexivity.
Defined.

Example get_lc_namespace_of_this_module :
  get_lc_namespace "langchain.schema.runnable.configurable"
  = ["langchain"; "schema"; "runnable"].
Proof. reflexivity. Qed.
